(** * oniongen-go: vanity v3 onion address generator

    A shallow embedding of [main.go]: the address encoder
    ([encodePublicKey]), the secret-key expander ([expandSecretKey]), the
    two output writers ([saveTorFormat], [saveBitcoinFormatMulti]), the
    body of the worker loop ([generate]) and the collector goroutine of
    [main], followed by the properties proved about them.

    Conventions.  A Go [byte] is a [Z] in [0, 256); a [[]byte] is a
    [list Z]; a Go [string] is a [string] (the program only ever builds
    ASCII strings).  Fixed-width integers are [Z] with the wrap-around
    written out.  Effects (file system, standard output, the result
    channel, panics and [os.Exit]) are threaded through a small
    state-and-abort monad over [World]. *)

From Stdlib Require Import ZArith Lia List Ascii String Bool Sorted DecimalString.
From stdpp Require Import base option list strings gmap.

Import ListNotations.
Local Open Scope string_scope.
Local Open Scope list_scope.
Local Open Scope Z_scope.

(** ** Bytes and strings *)

Definition byte_ok (b : Z) : Prop := 0 <= b < 256.
Definition bytes_ok (bs : list Z) : Prop := Forall byte_ok bs.

Definition byte_of_ascii (c : ascii) : Z := Z.of_N (N_of_ascii c).
Definition ascii_of_byte (b : Z) : ascii := ascii_of_N (Z.to_N b).

(** [[]byte(s)] *)
Definition bytes_of_string (s : string) : list Z :=
  List.map byte_of_ascii (list_ascii_of_string s).

(** [strings.ToLower] and [strings.ToUpper] on ASCII text. *)
Definition lower_ascii (c : ascii) : ascii :=
  let n := byte_of_ascii c in
  if (65 <=? n) && (n <=? 90) then ascii_of_byte (n + 32) else c.

Definition upper_ascii (c : ascii) : ascii :=
  let n := byte_of_ascii c in
  if (97 <=? n) && (n <=? 122) then ascii_of_byte (n - 32) else c.

Fixpoint ToLower (s : string) : string :=
  match s with
  | EmptyString => EmptyString
  | String c r => String (lower_ascii c) (ToLower r)
  end.

Fixpoint ToUpper (s : string) : string :=
  match s with
  | EmptyString => EmptyString
  | String c r => String (upper_ascii c) (ToUpper r)
  end.

(** [strings.HasPrefix s p] *)
Fixpoint HasPrefix (s p : string) {struct p} : bool :=
  match p, s with
  | EmptyString, _ => true
  | String a p', String b s' => if Ascii.eqb a b then HasPrefix s' p' else false
  | String _ _, EmptyString => false
  end.

(** Big-endian value of a byte string, and the [k]-th digit of [n] in
    base [2^w] counted from the least significant one. *)
Definition be_value (bs : list Z) : Z :=
  fold_left (fun acc b => Z.lor (Z.shiftl acc 8) b) bs 0.

Definition digit (w : Z) (n : Z) (k : Z) : Z :=
  Z.land (Z.shiftr n (w * k)) (Z.ones w).

(** ** encoding/base32 and encoding/base64 (RFC 4648)

    [StdEncoding] of both packages: the input is cut in quanta of 5
    (resp. 3) bytes, each quantum read as one big-endian number and
    written as 8 (resp. 4) digits of 5 (resp. 6) bits through the
    alphabet; a short final quantum is zero-filled, keeps the digits that
    carry input bits and is completed with ['=']. *)

Module Base32.

Definition alphabet : string := "ABCDEFGHIJKLMNOPQRSTUVWXYZ234567".

Definition encode_digit (v : Z) : ascii :=
  match String.get (Z.to_nat v) alphabet with
  | Some c => c
  | None => "="%char
  end.

(** The 8 characters of one zero-filled quantum. *)
Definition quantum (b0 b1 b2 b3 b4 : Z) : list ascii :=
  let n := be_value [b0; b1; b2; b3; b4] in
  List.map (fun k => encode_digit (digit 5 n k)) [7; 6; 5; 4; 3; 2; 1; 0].

Definition padded (keep : nat) (cs : list ascii) : list ascii :=
  firstn keep cs ++ repeat "="%char (8 - keep).

Fixpoint encode (src : list Z) : list ascii :=
  match src with
  | [] => []
  | b0 :: b1 :: b2 :: b3 :: b4 :: rest => quantum b0 b1 b2 b3 b4 ++ encode rest
  | [b0; b1; b2; b3] => padded 7 (quantum b0 b1 b2 b3 0)
  | [b0; b1; b2] => padded 5 (quantum b0 b1 b2 0 0)
  | [b0; b1] => padded 4 (quantum b0 b1 0 0 0)
  | [b0] => padded 2 (quantum b0 0 0 0 0)
  end.

(** [base32.StdEncoding.EncodeToString] *)
Definition EncodeToString (src : list Z) : string :=
  string_of_list_ascii (encode src).

(** Inverse of [encode_digit]. *)
Definition decode_digit (c : ascii) : option Z :=
  let n := byte_of_ascii c in
  if (65 <=? n) && (n <=? 90) then Some (n - 65)
  else if (50 <=? n) && (n <=? 55) then Some (n - 24)
  else None.

Definition digits_value (ds : list Z) : Z :=
  fold_left (fun acc d => Z.lor (Z.shiftl acc 5) d) ds 0.

Definition unquantum (ds : list Z) : list Z :=
  let n := digits_value ds in
  List.map (fun k => digit 8 n k) [4; 3; 2; 1; 0].

(** Decoding of unpadded text made of whole quanta (8 characters
    each); [None] on any other text. *)
Fixpoint decode (cs : list ascii) : option (list Z) :=
  match cs with
  | [] => Some []
  | c0 :: c1 :: c2 :: c3 :: c4 :: c5 :: c6 :: c7 :: rest =>
      ds ← mapM decode_digit [c0; c1; c2; c3; c4; c5; c6; c7];
      bs ← decode rest;
      Some (unquantum ds ++ bs)
  | _ => None
  end.

Definition DecodeString (s : string) : option (list Z) :=
  decode (list_ascii_of_string s).

End Base32.

Module Base64.

Definition alphabet : string :=
  "ABCDEFGHIJKLMNOPQRSTUVWXYZabcdefghijklmnopqrstuvwxyz0123456789+/".

Definition encode_digit (v : Z) : ascii :=
  match String.get (Z.to_nat v) alphabet with
  | Some c => c
  | None => "="%char
  end.

Definition quantum (b0 b1 b2 : Z) : list ascii :=
  let n := be_value [b0; b1; b2] in
  List.map (fun k => encode_digit (digit 6 n k)) [3; 2; 1; 0].

Definition padded (keep : nat) (cs : list ascii) : list ascii :=
  firstn keep cs ++ repeat "="%char (4 - keep).

Fixpoint encode (src : list Z) : list ascii :=
  match src with
  | [] => []
  | b0 :: b1 :: b2 :: rest => quantum b0 b1 b2 ++ encode rest
  | [b0; b1] => padded 3 (quantum b0 b1 0)
  | [b0] => padded 2 (quantum b0 0 0)
  end.

(** [base64.StdEncoding.EncodeToString] *)
Definition EncodeToString (src : list Z) : string :=
  string_of_list_ascii (encode src).

End Base64.

(** Cutting a byte string in [n] blocks of [size] bytes. *)
Fixpoint blocks (size : nat) (n : nat) (bs : list Z) : list (list Z) :=
  match n with
  | O => []
  | S n' => firstn size bs :: blocks size n' (skipn size bs)
  end.

(** The [n] low bytes of [v], most significant first / least
    significant first. *)
Definition be_bytes (n : nat) (v : Z) : list Z :=
  List.map (fun k => digit 8 v (Z.of_nat k)) (rev (seq 0 n)).

Definition le_bytes (n : nat) (v : Z) : list Z :=
  List.map (fun k => digit 8 v (Z.of_nat k)) (seq 0 n).

Definition le_value (bs : list Z) : Z := be_value (rev bs).

(** ** crypto/sha512 (FIPS 180-4, SHA-512) *)

Module SHA512.

Definition w64 (x : Z) : Z := x mod 2 ^ 64.
Definition rotr (n : Z) (x : Z) : Z :=
  Z.lor (Z.shiftr x n) (w64 (Z.shiftl x (64 - n))).

Definition Ch (x y z : Z) : Z := Z.lxor (Z.land x y) (Z.land (Z.lnot x) z).
Definition Maj (x y z : Z) : Z :=
  Z.lxor (Z.lxor (Z.land x y) (Z.land x z)) (Z.land y z).
Definition Sigma0 (x : Z) : Z := Z.lxor (Z.lxor (rotr 28 x) (rotr 34 x)) (rotr 39 x).
Definition Sigma1 (x : Z) : Z := Z.lxor (Z.lxor (rotr 14 x) (rotr 18 x)) (rotr 41 x).
Definition sigma0 (x : Z) : Z := Z.lxor (Z.lxor (rotr 1 x) (rotr 8 x)) (Z.shiftr x 7).
Definition sigma1 (x : Z) : Z := Z.lxor (Z.lxor (rotr 19 x) (rotr 61 x)) (Z.shiftr x 6).

Definition K : list Z :=
  [ 0x428a2f98d728ae22; 0x7137449123ef65cd; 0xb5c0fbcfec4d3b2f; 0xe9b5dba58189dbbc;
    0x3956c25bf348b538; 0x59f111f1b605d019; 0x923f82a4af194f9b; 0xab1c5ed5da6d8118;
    0xd807aa98a3030242; 0x12835b0145706fbe; 0x243185be4ee4b28c; 0x550c7dc3d5ffb4e2;
    0x72be5d74f27b896f; 0x80deb1fe3b1696b1; 0x9bdc06a725c71235; 0xc19bf174cf692694;
    0xe49b69c19ef14ad2; 0xefbe4786384f25e3; 0x0fc19dc68b8cd5b5; 0x240ca1cc77ac9c65;
    0x2de92c6f592b0275; 0x4a7484aa6ea6e483; 0x5cb0a9dcbd41fbd4; 0x76f988da831153b5;
    0x983e5152ee66dfab; 0xa831c66d2db43210; 0xb00327c898fb213f; 0xbf597fc7beef0ee4;
    0xc6e00bf33da88fc2; 0xd5a79147930aa725; 0x06ca6351e003826f; 0x142929670a0e6e70;
    0x27b70a8546d22ffc; 0x2e1b21385c26c926; 0x4d2c6dfc5ac42aed; 0x53380d139d95b3df;
    0x650a73548baf63de; 0x766a0abb3c77b2a8; 0x81c2c92e47edaee6; 0x92722c851482353b;
    0xa2bfe8a14cf10364; 0xa81a664bbc423001; 0xc24b8b70d0f89791; 0xc76c51a30654be30;
    0xd192e819d6ef5218; 0xd69906245565a910; 0xf40e35855771202a; 0x106aa07032bbd1b8;
    0x19a4c116b8d2d0c8; 0x1e376c085141ab53; 0x2748774cdf8eeb99; 0x34b0bcb5e19b48a8;
    0x391c0cb3c5c95a63; 0x4ed8aa4ae3418acb; 0x5b9cca4f7763e373; 0x682e6ff3d6b2b8a3;
    0x748f82ee5defb2fc; 0x78a5636f43172f60; 0x84c87814a1f0ab72; 0x8cc702081a6439ec;
    0x90befffa23631e28; 0xa4506cebde82bde9; 0xbef9a3f7b2c67915; 0xc67178f2e372532b;
    0xca273eceea26619c; 0xd186b8c721c0c207; 0xeada7dd6cde0eb1e; 0xf57d4f7fee6ed178;
    0x06f067aa72176fba; 0x0a637dc5a2c898a6; 0x113f9804bef90dae; 0x1b710b35131c471b;
    0x28db77f523047d84; 0x32caab7b40c72493; 0x3c9ebe0a15c9bebc; 0x431d67c49c100d4c;
    0x4cc5d4becb3e42b6; 0x597f299cfc657e2a; 0x5fcb6fab3ad6faec; 0x6c44198c4a475817 ].

(** The eight working variables / the chaining value. *)
Record state := State { sa : Z; sb : Z; sc : Z; sd : Z; se : Z; sf : Z; sg : Z; sh : Z }.

Definition H0 : state :=
  State 0x6a09e667f3bcc908 0xbb67ae8584caa73b 0x3c6ef372fe94f82b 0xa54ff53a5f1d36f1
        0x510e527fade682d1 0x9b05688c2b3e6c1f 0x1f83d9abfb41bd6b 0x5be0cd19137e2179.

(** One round.  [win] holds the sixteen schedule words W(t) .. W(t+15);
    the round consumes W(t) and appends W(t+16). *)
Definition round (acc : state * list Z) (k : Z) : state * list Z :=
  let '(State a b c d e f g h, win) := acc in
  let w i := nth i win 0 in
  let T1 := w64 (h + Sigma1 e + Ch e f g + k + w 0%nat) in
  let T2 := w64 (Sigma0 a + Maj a b c) in
  let next := w64 (sigma1 (w 14%nat) + w 9%nat + sigma0 (w 1%nat) + w 0%nat) in
  (State (w64 (T1 + T2)) a b c (w64 (d + T1)) e f g, tl win ++ [next]).

Definition compress (h : state) (block : list Z) : state :=
  let win := List.map be_value (blocks 8 16 block) in
  let '(State a b c d e f g i) := fst (fold_left round K (h, win)) in
  State (w64 (sa h + a)) (w64 (sb h + b)) (w64 (sc h + c)) (w64 (sd h + d))
        (w64 (se h + e)) (w64 (sf h + f)) (w64 (sg h + g)) (w64 (sh h + i)).

(** Message followed by [0x80], zeros, and the bit length on 16 bytes. *)
Definition pad (msg : list Z) : list Z :=
  let len := Z.of_nat (List.length msg) in
  msg ++ [0x80] ++ repeat 0 (Z.to_nat ((111 - len) mod 128)) ++ be_bytes 16 (8 * len).

Definition digest (msg : list Z) : state :=
  let p := pad msg in
  fold_left compress (blocks 128 (List.length p / 128) p) H0.

(** [sha512.Sum512] *)
Definition Sum512 (msg : list Z) : list Z :=
  let '(State a b c d e f g h) := digest msg in
  flat_map (be_bytes 8) [a; b; c; d; e; f; g; h].

End SHA512.

(** ** golang.org/x/crypto/sha3 (FIPS 202, SHA3-256) *)

Module SHA3.

Definition w64 (x : Z) : Z := x mod 2 ^ 64.
Definition rotl (n : Z) (x : Z) : Z :=
  Z.lor (w64 (Z.shiftl x n)) (Z.shiftr x (64 - n)).

Definition RC : list Z :=
  [ 0x0000000000000001; 0x0000000000008082; 0x800000000000808a; 0x8000000080008000;
    0x000000000000808b; 0x0000000080000001; 0x8000000080008081; 0x8000000000008009;
    0x000000000000008a; 0x0000000000000088; 0x0000000080008009; 0x000000008000000a;
    0x000000008000808b; 0x800000000000008b; 0x8000000000008089; 0x8000000000008003;
    0x8000000000008002; 0x8000000000000080; 0x000000000000800a; 0x800000008000000a;
    0x8000000080008081; 0x8000000000008080; 0x0000000080000001; 0x8000000080008008 ].

(** Rotation offsets, lane (x, y) at index x + 5y. *)
Definition offsets : list Z :=
  [ 0; 1; 62; 28; 27; 36; 44; 6; 55; 20; 3; 10; 43; 25; 39; 41; 45; 15; 21; 8;
    18; 2; 61; 56; 14 ].

(** The state: 25 lanes of 64 bits, lane (x, y) at index x + 5y. *)
Definition lane (A : list Z) (x y : nat) : Z := nth (x mod 5 + 5 * (y mod 5)) A 0.

Definition coords : list (nat * nat) :=
  flat_map (fun y => List.map (fun x => (x, y)) (seq 0 5)) (seq 0 5).

Definition theta (A : list Z) : list Z :=
  let C x := fold_left Z.lxor (List.map (lane A x) (seq 0 5)) 0 in
  let D x := Z.lxor (C (x + 4)%nat) (rotl 1 (C (x + 1)%nat)) in
  List.map (fun '(x, y) => Z.lxor (lane A x y) (D x)) coords.

(** rho and pi together: lane (x, y) of the result is the rotated lane
    (x + 3y, x) of the argument. *)
Definition rho_pi (A : list Z) : list Z :=
  List.map (fun '(x, y) =>
         let x0 := ((x + 3 * y) mod 5)%nat in
         rotl (nth (x0 + 5 * x) offsets 0) (lane A x0 x)) coords.

Definition chi (A : list Z) : list Z :=
  List.map (fun '(x, y) =>
         Z.lxor (lane A x y)
                (Z.land (Z.lnot (lane A (x + 1) y)) (lane A (x + 2) y))) coords.

Definition iota (rc : Z) (A : list Z) : list Z :=
  match A with
  | [] => []
  | a :: r => Z.lxor a rc :: r
  end.

Definition round (A : list Z) (rc : Z) : list Z := iota rc (chi (rho_pi (theta A))).

Definition keccak_f (A : list Z) : list Z := fold_left round RC A.

(** SHA3-256: rate 136 bytes, domain byte [0x06], final bit [0x80]. *)
Definition rate : nat := 136.

Definition pad (msg : list Z) : list Z :=
  let q := (rate - List.length msg mod rate)%nat in
  if (q =? 1)%nat then msg ++ [0x86]
  else msg ++ [0x06] ++ repeat 0 (q - 2) ++ [0x80].

Definition absorb (A : list Z) (block : list Z) : list Z :=
  let lanes := List.map le_value (blocks 8 17 block) ++ repeat 0 8 in
  keccak_f (List.map (fun '(a, b) => Z.lxor a b) (combine A lanes)).

(** [sha3.Sum256] *)
Definition Sum256 (msg : list Z) : list Z :=
  let p := pad msg in
  let A := fold_left absorb (blocks rate (List.length p / rate) p) (repeat 0 25) in
  flat_map (fun i => le_bytes 8 (nth i A 0)) (seq 0 4).

End SHA3.

(** ** main.go: data *)

(** [type PrefixMatch struct].  [Attempts] is a [uint64]; [ElapsedTime]
    is a [time.Duration] (nanoseconds). *)
Record PrefixMatch := {
  Prefix : string;
  OnionAddr : string;
  PrivateKey : string;
  Attempts : Z;
  ElapsedTime : Z
}.

Definition TorMode : string := "tor".
Definition BitcoinMode : string := "bitcoin".

(** Conversions and arithmetic of the fixed-width integers in use. *)
Definition uint64 (x : Z) : Z := x mod 2 ^ 64.
Definition int32 (x : Z) : Z := (x + 2 ^ 31) mod 2 ^ 32 - 2 ^ 31.

(** ** main.go: the pure functions *)

(** [func expandSecretKey(secretKey ed25519.PrivateKey) [64]byte].  The
    key is the 64-byte slice returned by [ed25519.GenerateKey];
    [secretKey[:32]] is its seed.  (On a slice of capacity below 32 the
    slice expression panics; the statements below are about keys of at
    least 32 bytes.) *)
Definition expandSecretKey (secretKey : list Z) : list Z :=
  let hash := SHA512.Sum512 (firstn 32 secretKey) in
  let hash := alter (fun b => Z.land b 248) 0%nat hash in
  let hash := alter (fun b => Z.land b 127) 31%nat hash in
  let hash := alter (fun b => Z.lor b 64) 31%nat hash in
  hash.

(** [func encodePublicKey(publicKey ed25519.PublicKey) string] *)
Definition encodePublicKey (publicKey : list Z) : string :=
  (* checksum = H(".onion checksum" || pubkey || version) *)
  let checksumBytes := bytes_of_string ".onion checksum" ++ publicKey ++ [0x03] in
  let checksum := SHA3.Sum256 checksumBytes in
  (* onion_address = base32(pubkey || checksum || version) *)
  let onionAddressBytes := publicKey ++ firstn 2 checksum ++ [0x03] in
  let onionAddress := Base32.EncodeToString onionAddressBytes in
  ToLower onionAddress.

(** ** Effects

    What the program does to its environment, in order.  Every file
    system operation is recorded with its result; [EvBatchWrite] marks
    the entry into [saveBitcoinFormatMulti] with its arguments, and
    [EvSummary] stands for the three [Printf] calls that print one
    match's summary line (whose rate is a floating-point quotient). *)
Inductive Event :=
| EvPrint (s : string)
| EvSummary (m : PrefixMatch)
| EvMkdirAll (path : string) (ok : bool)
| EvWriteFile (path : string) (data : list Z) (ok : bool)
| EvOpenFile (path : string) (ok : bool)
| EvWriteString (path : string) (s : string) (ok : bool)
| EvFlush (path : string) (ok : bool)
| EvSend (m : PrefixMatch)
| EvBatchWrite (ms : list PrefixMatch) (outputPath : string).

(** The environment: regular files with their contents, directories,
    the results the operating system will give to the coming file
    operations ([true]: the operation fails; operations beyond the end
    of the list succeed), and the events so far. *)
Record World := {
  files : gmap string (list Z);
  dirs : gset string;
  faults : list bool;
  trace : list Event
}.

Definition empty_world : World :=
  {| files := ∅; dirs := ∅; faults := []; trace := [] |}.

(** How a computation ends: normally, by a panic (which kills the whole
    process, as no goroutine recovers), or by [os.Exit]. *)
Inductive Outcome (A : Type) :=
| Done (a : A) (w : World)
| Panicked (w : World)
| Exited (code : Z) (w : World).
Arguments Done {A} a w.
Arguments Panicked {A} w.
Arguments Exited {A} code w.

Definition M (A : Type) : Type := World -> Outcome A.

Definition ret {A} (a : A) : M A := fun w => Done a w.

Definition bind {A B} (m : M A) (k : A -> M B) : M B :=
  fun w =>
    match m w with
    | Done a w' => k a w'
    | Panicked w' => Panicked w'
    | Exited c w' => Exited c w'
    end.

Notation "x <- c1 ;; c2" := (bind c1 (fun x => c2))
  (at level 100, c1 at next level, right associativity).
Notation "c1 ;; c2" := (bind c1 (fun _ => c2))
  (at level 100, right associativity).

Definition world_of {A} (o : Outcome A) : World :=
  match o with
  | Done _ w => w
  | Panicked w => w
  | Exited _ w => w
  end.

(** Go's [error]: [None] is [nil]. *)
Definition error : Type := option string.

Definition panic {A} : M A := fun w => Panicked w.
Definition os_Exit {A} (code : Z) : M A := fun w => Exited code w.

Definition emit (e : Event) : M unit :=
  fun w => Done tt {| files := files w; dirs := dirs w; faults := faults w;
                      trace := trace w ++ [e] |}.

(** The result of the next file operation. *)
Definition next_fault : M bool :=
  fun w => Done (hd false (faults w))
                {| files := files w; dirs := dirs w; faults := tl (faults w);
                   trace := trace w |}.

Definition set_file (path : string) (data : list Z) : M unit :=
  fun w => Done tt {| files := <[path := data]> (files w); dirs := dirs w;
                      faults := faults w; trace := trace w |}.

Definition add_dir (path : string) : M unit :=
  fun w => Done tt {| files := files w; dirs := {[path]} ∪ dirs w;
                      faults := faults w; trace := trace w |}.

Definition get_file (path : string) : M (list Z) :=
  fun w => Done (default [] (files w !! path)) w.

Definition io_error (op path : string) : error := Some (op +:+ " " +:+ path).

(** [os.MkdirAll(path, 0700)] *)
Definition os_MkdirAll (path : string) : M error :=
  failed <- next_fault ;;
  emit (EvMkdirAll path (negb failed)) ;;
  if failed : bool then ret (io_error "mkdir" path)
  else add_dir path ;; ret None.

(** [ioutil.WriteFile(path, data, 0600)] *)
Definition ioutil_WriteFile (path : string) (data : list Z) : M error :=
  failed <- next_fault ;;
  emit (EvWriteFile path data (negb failed)) ;;
  if failed : bool then ret (io_error "write" path)
  else set_file path data ;; ret None.

(** [os.OpenFile(path, os.O_CREATE|os.O_WRONLY|os.O_TRUNC, 0600)] *)
Definition os_OpenFile (path : string) : M error :=
  failed <- next_fault ;;
  emit (EvOpenFile path (negb failed)) ;;
  if failed : bool then ret (io_error "open" path)
  else set_file path [] ;; ret None.

(** [bufio.Writer]: [WriteString] adds to the pending bytes [buf] that
    [Flush] appends to the file.  (The real writer also flushes whenever
    its buffer is full; a run without failures leaves the same file.) *)
Definition writer_WriteString (path : string) (buf : list Z) (s : string)
  : M (list Z * error) :=
  failed <- next_fault ;;
  emit (EvWriteString path s (negb failed)) ;;
  if failed : bool then ret (buf, io_error "write" path)
  else ret (buf ++ bytes_of_string s, None).

Definition writer_Flush (path : string) (buf : list Z) : M error :=
  failed <- next_fault ;;
  emit (EvFlush path (negb failed)) ;;
  if failed : bool then ret (io_error "flush" path)
  else old <- get_file path ;; set_file path (old ++ buf) ;; ret None.

(** [fmt.Println] / [fmt.Printf] of a text; the text of an [error]
    value ([%v]) is left out of the message. *)
Definition fmt_Print (s : string) : M unit := emit (EvPrint s).

(** [resultChan <- match] *)
Definition send (m : PrefixMatch) : M unit := emit (EvSend m).

(** ** main.go: the effectful functions *)

(** [func checkErr(err error)] *)
Definition checkErr (err : error) : M unit :=
  match err with
  | Some _ => panic
  | None => ret tt
  end.

(** [func saveTorFormat(onionAddress string, publicKey ed25519.PublicKey,
    secretKey [64]byte)] *)
Definition saveTorFormat (onionAddress : string) (publicKey secretKey : list Z)
  : M unit :=
  _ <- os_MkdirAll onionAddress ;;
  let secretKeyFile :=
    (bytes_of_string "== ed25519v1-secret: type0 ==" ++ [0; 0; 0]) ++ secretKey in
  err <- ioutil_WriteFile (onionAddress +:+ "/hs_ed25519_secret_key") secretKeyFile ;;
  checkErr err ;;
  let publicKeyFile :=
    (bytes_of_string "== ed25519v1-public: type0 ==" ++ [0; 0; 0]) ++ publicKey in
  err <- ioutil_WriteFile (onionAddress +:+ "/hs_ed25519_public_key") publicKeyFile ;;
  checkErr err ;;
  err <- ioutil_WriteFile (onionAddress +:+ "/hostname")
           (bytes_of_string (onionAddress +:+ ".onion" +:+ String "010" "")) ;;
  checkErr err.

(** The [for _, match := range matches] loop of
    [saveBitcoinFormatMulti]; the result is the writer's pending bytes. *)
Fixpoint write_keys (outputFile : string) (matches : list PrefixMatch)
    (buf : list Z) : M (list Z) :=
  match matches with
  | [] => ret buf
  | match_ :: rest =>
      (* Encode the key in the format Bitcoin Core expects *)
      let bitcoinKeyFormat := "ED25519-V3:" +:+ PrivateKey match_ +:+ String "010" "" in
      r <- writer_WriteString outputFile buf bitcoinKeyFormat ;;
      match snd r with
      | Some _ =>
          fmt_Print ("Error writing to file " +:+ outputFile) ;;
          os_Exit 1
      | None =>
          emit (EvSummary match_) ;;
          write_keys outputFile rest (fst r)
      end
  end.

(** [func saveBitcoinFormatMulti(matches []PrefixMatch, outputPath string)].
    The deferred [file.Close()] changes nothing that is modelled. *)
Definition saveBitcoinFormatMulti (matches : list PrefixMatch) (outputPath : string)
  : M unit :=
  emit (EvBatchWrite matches outputPath) ;;
  (* Determine the output location *)
  let outputFile :=
    if decide (outputPath = "") then "onion_v3_private_key" else outputPath in
  (* Create or truncate the output file *)
  err <- os_OpenFile outputFile ;;
  match err with
  | Some _ =>
      fmt_Print ("Error opening output file " +:+ outputFile) ;;
      os_Exit 1
  | None =>
      (* Write each key to the file *)
      buf <- write_keys outputFile matches [] ;;
      (* Flush the writer to ensure all data is written *)
      err <- writer_Flush outputFile buf ;;
      match err with
      | Some _ =>
          fmt_Print ("Error flushing data to file " +:+ outputFile) ;;
          os_Exit 1
      | None =>
          fmt_Print ("Bitcoin format keys saved to " +:+ outputFile)
      end
  end.

(** ** main.go: the worker, [func generate] *)

(** What one turn of the loop takes from outside: the result of
    [ed25519.GenerateKey(rand.Reader)] and the value [time.Since(startTime)]
    would have. *)
Record Draw := {
  draw_publicKey : list Z;
  draw_secretKey : list Z;
  draw_err : error;
  draw_elapsed : Z
}.

(** A compiled [*regexp.Regexp] is known by its [MatchString]; [None] is
    the nil pointer. *)
Definition Regexp : Type := string -> bool.

(** The [for _, prefix := range prefixes] loop, left at the first match
    by [break]. *)
Fixpoint scan_prefixes (prefixes : list string) (onionAddress : string)
    (secretKey : list Z) (attempts elapsed : Z) : M unit :=
  match prefixes with
  | [] => ret tt
  | prefix :: rest =>
      if HasPrefix onionAddress prefix then
        let match_ := {| Prefix := prefix;
                         OnionAddr := onionAddress;
                         PrivateKey := Base64.EncodeToString (firstn 32 secretKey);
                         Attempts := attempts;
                         ElapsedTime := elapsed |} in
        send match_
      else scan_prefixes rest onionAddress secretKey attempts elapsed
  end.

(** One turn of the [for] loop of [generate]; the result is the new
    value of [attempts]. *)
Definition generate_body (re : option Regexp) (prefixes : list string)
    (outputMode outputPath : string) (attempts : Z) (d : Draw) : M Z :=
  let publicKey := draw_publicKey d in
  let secretKey := draw_secretKey d in
  checkErr (draw_err d) ;;
  let attempts := uint64 (attempts + 1) in
  let onionAddress := encodePublicKey publicKey in
  (* If prefixes are provided, check against them *)
  (if (0 <? List.length prefixes)%nat then
     scan_prefixes prefixes onionAddress secretKey attempts (draw_elapsed d)
   else
     match re with
     | Some r =>
         if r onionAddress then
           (* If using regex pattern *)
           fmt_Print onionAddress ;;
           let match_ := {| Prefix := "";
                            OnionAddr := onionAddress;
                            PrivateKey := Base64.EncodeToString (firstn 32 secretKey);
                            Attempts := attempts;
                            ElapsedTime := draw_elapsed d |} in
           (if decide (outputMode = TorMode) then
              saveTorFormat onionAddress publicKey (expandSecretKey secretKey)
            else ret tt) ;;
           send match_
         else ret tt
     | None => ret tt
     end) ;;
  ret attempts.

(** The loop run on the draws of its first turns, from [attempts]. *)
Fixpoint generate_from (re : option Regexp) (prefixes : list string)
    (outputMode outputPath : string) (attempts : Z) (draws : list Draw) : M Z :=
  match draws with
  | [] => ret attempts
  | d :: rest =>
      attempts' <- generate_body re prefixes outputMode outputPath attempts d ;;
      generate_from re prefixes outputMode outputPath attempts' rest
  end.

(** [generate]: [var attempts uint64] starts at zero. *)
Definition generate (re : option Regexp) (prefixes : list string)
    (outputMode outputPath : string) (draws : list Draw) : M Z :=
  generate_from re prefixes outputMode outputPath 0 draws.

(** ** main.go: the collector goroutine of [main] *)

(** [matches] and [matchCount] (an [int32]). *)
Record Collector := {
  matches : list PrefixMatch;
  matchCount : Z
}.

Definition collector_init : Collector := {| matches := []; matchCount := 0 |}.

(** The body of [for match := range resultChan]; [number] is the [int]
    given on the command line. *)
Definition collect_one (number : Z) (outputMode outputPath : string)
    (st : Collector) (match_ : PrefixMatch) : M Collector :=
  let matches := matches st ++ [match_] in
  let matchCount := int32 (matchCount st + 1) in
  (* If we've found enough matches, exit *)
  if int32 number <=? matchCount then
    (* In Bitcoin mode, save all matches to a single file *)
    (if decide (outputMode = BitcoinMode) then
       saveBitcoinFormatMulti matches outputPath
     else ret tt) ;;
    os_Exit 0
  else ret {| matches := matches; matchCount := matchCount |}.

(** The goroutine run on the matches it receives, in arrival order. *)
Fixpoint collect (number : Z) (outputMode outputPath : string)
    (st : Collector) (incoming : list PrefixMatch) : M Collector :=
  match incoming with
  | [] => ret st
  | match_ :: rest =>
      st' <- collect_one number outputMode outputPath st match_ ;;
      collect number outputMode outputPath st' rest
  end.

Definition collector (number : Z) (outputMode outputPath : string)
    (incoming : list PrefixMatch) : M Collector :=
  collect number outputMode outputPath collector_init incoming.

(** ** main.go: [func readPrefixFile]

    The file is read through a [bufio.Scanner] with the default split
    function [bufio.ScanLines] and the default buffer limit, and every
    line goes through [strings.TrimSpace]. *)

(** [string(bs)] *)
Definition string_of_bytes (bs : list Z) : string :=
  string_of_list_ascii (List.map ascii_of_byte bs).

(** [bufio.ScanLines]: the text is cut after every line feed, a last
    piece without line feed is a line if it is not empty. *)
Fixpoint raw_lines (s : string) : list string :=
  match s with
  | EmptyString => []
  | String c r =>
      if Ascii.eqb c "010" then EmptyString :: raw_lines r
      else match raw_lines r with
           | [] => [String c EmptyString]
           | l :: ls => String c l :: ls
           end
  end.

(** [dropCR]: one trailing carriage return is dropped. *)
Fixpoint dropCR (s : string) : string :=
  match s with
  | EmptyString => EmptyString
  | String c EmptyString => if Ascii.eqb c "013" then EmptyString else s
  | String c r => String c (dropCR r)
  end.

(** [bufio.MaxScanTokenSize]: a line that fills the scanner's buffer of
    this many bytes before its line feed stops the scan with
    [bufio.ErrTooLong]. *)
Definition MaxScanTokenSize : Z := 65536.

(** The lines [scanner.Scan] / [scanner.Text] deliver for a whole file,
    or [None] when [scanner.Err] is not nil. *)
Definition scan_lines (s : string) : option (list string) :=
  let ls := raw_lines s in
  if existsb (fun l => MaxScanTokenSize <=? Z.of_nat (String.length l)) ls then None
  else Some (List.map dropCR ls).

(** [unicode.IsSpace] on the bytes of UTF-8 text: the six ASCII
    characters, and the encodings of U+0085, U+00A0 (two bytes) and of
    U+1680, U+2000..U+200A, U+2028, U+2029, U+202F, U+205F, U+3000
    (three bytes). *)
Definition space1 (c : ascii) : bool :=
  let n := byte_of_ascii c in
  ((9 <=? n) && (n <=? 13)) || (n =? 32).

Definition space2 (c1 c2 : ascii) : bool :=
  let n1 := byte_of_ascii c1 in
  let n2 := byte_of_ascii c2 in
  (n1 =? 0xC2) && ((n2 =? 0x85) || (n2 =? 0xA0)).

Definition space3 (c1 c2 c3 : ascii) : bool :=
  let n1 := byte_of_ascii c1 in
  let n2 := byte_of_ascii c2 in
  let n3 := byte_of_ascii c3 in
  ((n1 =? 0xE1) && (n2 =? 0x9A) && (n3 =? 0x80))
  || ((n1 =? 0xE2) && (n2 =? 0x80)
      && (((0x80 <=? n3) && (n3 <=? 0x8A)) || (n3 =? 0xA8) || (n3 =? 0xA9) || (n3 =? 0xAF)))
  || ((n1 =? 0xE2) && (n2 =? 0x81) && (n3 =? 0x9F))
  || ((n1 =? 0xE3) && (n2 =? 0x80) && (n3 =? 0x80)).

(** Leading white space removed ([strings.TrimLeftFunc] with
    [unicode.IsSpace]). *)
Fixpoint TrimLeft (s : string) : string :=
  match s with
  | EmptyString => EmptyString
  | String c1 r1 =>
      if space1 c1 then TrimLeft r1
      else match r1 with
           | EmptyString => s
           | String c2 r2 =>
               if space2 c1 c2 then TrimLeft r2
               else match r2 with
                    | EmptyString => s
                    | String c3 r3 => if space3 c1 c2 c3 then TrimLeft r3 else s
                    end
           end
  end.

(** The same on the reversed text, for the trailing white space. *)
Fixpoint TrimLeft_rev (s : string) : string :=
  match s with
  | EmptyString => EmptyString
  | String c1 r1 =>
      if space1 c1 then TrimLeft_rev r1
      else match r1 with
           | EmptyString => s
           | String c2 r2 =>
               if space2 c2 c1 then TrimLeft_rev r2
               else match r2 with
                    | EmptyString => s
                    | String c3 r3 => if space3 c3 c2 c1 then TrimLeft_rev r3 else s
                    end
           end
  end.

Definition string_rev (s : string) : string :=
  string_of_list_ascii (rev (list_ascii_of_string s)).

Definition TrimRight (s : string) : string := string_rev (TrimLeft_rev (string_rev s)).

(** [strings.TrimSpace] *)
Definition TrimSpace (s : string) : string := TrimRight (TrimLeft s).

(** What [os.Open] gives to read: the bytes of a file, or a directory
    (every read of which fails). *)
Inductive Handle :=
| FileHandle (data : list Z)
| DirHandle.

(** [os.Open(path)] *)
Definition os_Open (path : string) : M (option Handle * error) :=
  failed <- next_fault ;;
  fun w =>
    match files w !! path with
    | Some data =>
        if failed : bool then Done (None, io_error "open" path) w
        else Done (Some (FileHandle data), None) w
    | None =>
        if failed || negb (bool_decide (path ∈ dirs w))
        then Done (None, io_error "open" path) w
        else Done (Some DirHandle, None) w
    end.

(** All the [scanner.Scan] calls of one scanner: the lines, or [None]
    when a read fails or a line is too long. *)
Definition scanner_Scan_all (h : Handle) : M (option (list string)) :=
  failed <- next_fault ;;
  match h with
  | DirHandle => ret None
  | FileHandle data =>
      if failed : bool then ret None else ret (scan_lines (string_of_bytes data))
  end.

(** The body of [for scanner.Scan()], on the lines in order. *)
Fixpoint collect_prefixes (lines : list string) (prefixes : list string) : list string :=
  match lines with
  | [] => prefixes
  | text :: rest =>
      let prefix := TrimSpace text in
      if decide (prefix <> "") then collect_prefixes rest (prefixes ++ [prefix])
      else collect_prefixes rest prefixes
  end.

(** [func readPrefixFile(filepath string) ([]string, error)].  The
    deferred [file.Close()] changes nothing that is modelled. *)
Definition readPrefixFile (filepath : string) : M (list string * error) :=
  r <- os_Open filepath ;;
  match r with
  | (Some file, None) =>
      scanned <- scanner_Scan_all file ;;
      match scanned with
      | None => ret ([], Some "error reading prefix file")
      | Some lines =>
          let prefixes := collect_prefixes lines [] in
          if (List.length prefixes =? 0)%nat
          then ret ([], Some "no valid prefixes found in file")
          else ret (prefixes, None)
      end
  | _ => ret ([], Some "cannot open prefix file")
  end.

(** ** main.go: [func printUsage] and [func main] up to the goroutines *)

(** [strconv.Atoi] with an [int] of 64 bits: an optional sign, then
    decimal digits, at least one, of a value that fits; [None] is the
    syntax or range error. *)
Definition digit_of (c : ascii) : option Z :=
  let n := byte_of_ascii c in
  if (48 <=? n) && (n <=? 57) then Some (n - 48) else None.

Fixpoint parse_digits (s : string) (n : Z) : option Z :=
  match s with
  | EmptyString => Some n
  | String c r =>
      match digit_of c with
      | Some d => parse_digits r (n * 10 + d)
      | None => None
      end
  end.

Definition Atoi (s : string) : option Z :=
  match s with
  | EmptyString => None
  | String c r =>
      let neg := Ascii.eqb c "-" in
      let digits := if neg || Ascii.eqb c "+" then r else s in
      match digits with
      | EmptyString => None
      | _ =>
          match parse_digits digits 0 with
          | Some n =>
              let v := if neg then - n else n in
              if (- 2 ^ 63 <=? v) && (v <? 2 ^ 63) then Some v else None
          | None => None
          end
      end
  end.

(** The verb [%d]. *)
Definition Itoa (n : Z) : string := NilZero.string_of_int (Z.to_int n).

Definition LF : string := String "010" EmptyString.
Definition DQ : string := String "034" EmptyString.

(** [func printUsage()]; one event for each [fmt.Println]. *)
Definition printUsage : M unit :=
  fmt_Print "Vanity Onion Address Generator" ;;
  fmt_Print (LF +:+ "Usage:") ;;
  fmt_Print "  oniongen-go [options] <regex> <number>" ;;
  fmt_Print (LF +:+ "Arguments:") ;;
  fmt_Print "  regex    - Regular expression pattern addresses should match (base32 chars: a-z, 2-7)" ;;
  fmt_Print "           - Not required if using -prefixfile" ;;
  fmt_Print "  number   - Number of matching addresses to generate before exiting" ;;
  fmt_Print (LF +:+ "Options:") ;;
  fmt_Print "  -mode       - Output mode: 'tor' (default) or 'bitcoin'" ;;
  fmt_Print "  -output     - Output file path (for bitcoin mode)" ;;
  fmt_Print "  -prefixfile - Path to file containing address prefixes (one per line)" ;;
  fmt_Print "                If provided, regex argument is ignored" ;;
  fmt_Print (LF +:+ "Examples:") ;;
  fmt_Print ("  oniongen-go " +:+ DQ +:+ "^test" +:+ DQ +:+ " 5                        # Generate 5 addresses starting with 'test' in Tor format") ;;
  fmt_Print ("  oniongen-go -mode=bitcoin " +:+ DQ +:+ "^btc" +:+ DQ +:+ " 1            # Generate 1 address starting with 'btc' in Bitcoin format") ;;
  fmt_Print ("  oniongen-go -mode=bitcoin -output=/path/to/onion_v3_private_key " +:+ DQ +:+ "^btc" +:+ DQ +:+ " 1") ;;
  fmt_Print "  oniongen-go -mode=bitcoin -prefixfile=prefixes.txt 5  # Generate 5 addresses with prefixes from file" ;;
  fmt_Print (LF +:+ "References:") ;;
  fmt_Print "  - Tor v3 onion address specification: https://github.com/torproject/torspec/blob/master/rend-spec-v3.txt".

(** [func main()] from its first line to the line that prints
    [Generating ...]: the values of [re], [prefixes] and [number] with
    which the goroutines are started.  [flag.Parse] has filled the flags
    and [args]; [Compile] is [regexp.Compile] ([None]: the pattern is
    refused) and [NumCPU] the value of [runtime.NumCPU()]. *)
Definition main_setup (Compile : string -> option Regexp) (NumCPU : Z)
    (outputMode prefixFilePath : string) (args : list string)
  : M (option Regexp * list string * Z) :=
  (* Validate the output mode *)
  (if decide (outputMode <> TorMode /\ outputMode <> BitcoinMode) then
     fmt_Print ("Invalid output mode: " +:+ outputMode
                +:+ ". Must be 'tor' or 'bitcoin'") ;;
     printUsage ;;
     os_Exit 1
   else ret tt) ;;
  (* Check if we're using prefixes from a file *)
  parsed <-
    (if decide (prefixFilePath <> "") then
       r <- readPrefixFile prefixFilePath ;;
       match r with
       | (_, Some _) =>
           fmt_Print "Error reading prefix file" ;;
           os_Exit 1
       | (prefixes, None) =>
           fmt_Print ("Loaded " +:+ Itoa (Z.of_nat (List.length prefixes))
                      +:+ " prefixes from " +:+ prefixFilePath) ;;
           (* With prefix file, we just need the number argument *)
           match args with
           | [] =>
               fmt_Print "Error: Missing number of addresses to generate" ;;
               printUsage ;;
               os_Exit 1
           | arg0 :: _ =>
               match Atoi arg0 with
               | Some num =>
                   if num <? 1 then
                     fmt_Print "Error: Number of addresses must be a positive integer" ;;
                     printUsage ;;
                     os_Exit 1
                   else ret ("", prefixes, num)
               | None =>
                   fmt_Print "Error: Number of addresses must be a positive integer" ;;
                   printUsage ;;
                   os_Exit 1
               end
           end
       end
     else
       (* Without prefix file, we need both regex and number arguments *)
       match args with
       | arg0 :: arg1 :: _ =>
           match Atoi arg1 with
           | Some num =>
               if num <? 1 then
                 fmt_Print "Error: Number of addresses must be a positive integer" ;;
                 printUsage ;;
                 os_Exit 1
               else ret (arg0, [], num)
           | None =>
               fmt_Print "Error: Number of addresses must be a positive integer" ;;
               printUsage ;;
               os_Exit 1
           end
       | _ =>
           fmt_Print "Error: Missing required arguments" ;;
           printUsage ;;
           os_Exit 1
       end) ;;
  let '(pattern, prefixes, number) := parsed in
  (* Create a regex pattern if we're not using prefixes from a file *)
  re <-
    (if (List.length prefixes =? 0)%nat then
       match Compile pattern with
       | Some re => ret (Some re)
       | None =>
           fmt_Print "Invalid regular expression" ;;
           os_Exit 1
       end
     else ret None) ;;
  fmt_Print ("Generating " +:+ Itoa number +:+ " addresses with "
             +:+ Itoa NumCPU +:+ " CPU cores") ;;
  ret (re, prefixes, number).

(** ** Notions the statements use *)

(** The lower-case base32 alphabet of an onion address. *)
Definition lower_alphabet : string := "abcdefghijklmnopqrstuvwxyz234567".

Definition in_lower_alphabet (c : ascii) : bool :=
  existsb (Ascii.eqb c) (list_ascii_of_string lower_alphabet).

(** The checksum of the v3 address of [publicKey]: the first 2 bytes of
    SHA3-256(".onion checksum" || publicKey || 0x03). *)
Definition onion_checksum (publicKey : list Z) : list Z :=
  firstn 2 (SHA3.Sum256 (bytes_of_string ".onion checksum" ++ publicKey ++ [0x03])).

(** Reading an address back: base32 decoding of its upper-case form,
    cut in public key (32 bytes), checksum (2 bytes) and version (1 byte). *)
Definition decodeOnionAddress (addr : string) : option (list Z * list Z * list Z) :=
  bs ← Base32.DecodeString (ToUpper addr);
  if decide (List.length bs = 35%nat)
  then Some (firstn 32 bs, firstn 2 (skipn 32 bs), skipn 34 bs)
  else None.

(** Any result. *)
Definition any {A} : A -> Prop := fun _ => True.

(** The events a computation adds to those of the world it starts in. *)
Definition new_events {A} (m : M A) (w : World) : list Event :=
  drop (List.length (trace w)) (trace (world_of (m w))).

(** The world [w] with the events [evs] added. *)
Definition log (w : World) (evs : list Event) : World :=
  {| files := files w; dirs := dirs w; faults := faults w; trace := trace w ++ evs |}.

(** [p] is a prefix of [s]: [s] is [p] followed by some text. *)
Definition extends (s p : string) : Prop := exists t, s = p +:+ t.

(** The record the worker sends for a match: the prefix that matched
    (empty for a regular expression), the address, the base64 text of
    the seed, the worker's counter and elapsed time. *)
Definition match_record (prefix onionAddress : string) (secretKey : list Z)
    (attempts elapsed : Z) : PrefixMatch :=
  {| Prefix := prefix;
     OnionAddr := onionAddress;
     PrivateKey := Base64.EncodeToString (firstn 32 secretKey);
     Attempts := attempts;
     ElapsedTime := elapsed |}.

(** Events of the Tor writer. *)
Definition is_tor_write (e : Event) : bool :=
  match e with
  | EvMkdirAll _ _ | EvWriteFile _ _ _ => true
  | _ => false
  end.

(** The three files of the address [addr] were written, among [evs]. *)
Definition tor_files_written (addr : string) (evs : list Event) : Prop :=
  exists d1 d2 d3,
    In (EvWriteFile (addr +:+ "/hs_ed25519_secret_key") d1 true) evs /\
    In (EvWriteFile (addr +:+ "/hs_ed25519_public_key") d2 true) evs /\
    In (EvWriteFile (addr +:+ "/hostname") d3 true) evs.

(** [m] only adds events that satisfy [P], and when it ends normally
    its result satisfies [Q]. *)
Definition emits {A} (P : Event -> Prop) (Q : A -> Prop) (m : M A) : Prop :=
  forall w, exists evs,
    trace (world_of (m w)) = trace w ++ evs /\ Forall P evs /\
    forall a w', m w = Done a w' -> Q a.

(** What holds of a match record sent while [attempts] is [n]. *)
Definition sent_ok (prefixes : list string) (n : Z) (m : PrefixMatch) : Prop :=
  Attempts m = n /\
  (prefixes <> [] -> extends (OnionAddr m) (Prefix m)) /\
  (prefixes = [] -> Prefix m = "").

(** The line of the Bitcoin key file for one key text, and the bytes of
    the file for a list of key texts. *)
Definition key_line (privateKey : string) : string :=
  "ED25519-V3:" +:+ privateKey +:+ String "010" "".

Definition key_file (privateKeys : list string) : list Z :=
  flat_map (fun k => bytes_of_string (key_line k)) privateKeys.

(** Events other than the entry into [saveBitcoinFormatMulti]. *)
Definition is_batch_write (e : Event) : bool :=
  match e with
  | EvBatchWrite _ _ => true
  | _ => false
  end.

(** While fewer than [number] matches are in, the counter is the length
    of the list. *)
Definition collecting (number : Z) (st : Collector) : Prop :=
  matchCount st = Z.of_nat (List.length (matches st)) /\ matchCount st < number.

(** The records sent, among events. *)
Definition sent (evs : list Event) : list PrefixMatch :=
  omap (fun e => match e with EvSend m => Some m | _ => None end) evs.

(** What the worker checked before it sent [m]. *)
Definition matched (re : option Regexp) (prefixes : list string) (m : PrefixMatch) : Prop :=
  match prefixes with
  | [] => exists r, re = Some r /\ r (OnionAddr m) = true
  | _ :: _ => In (Prefix m) prefixes /\ HasPrefix (OnionAddr m) (Prefix m) = true
  end.

(** Visible ASCII characters. *)
Definition plain (c : ascii) : bool :=
  let n := byte_of_ascii c in (33 <=? n) && (n <=? 126).

Definition string_head (s : string) : option ascii :=
  match s with
  | String c _ => Some c
  | EmptyString => None
  end.

Definition string_last (s : string) : option ascii := last (list_ascii_of_string s).

(** A text that is not empty and neither starts nor ends with one of
    the ASCII white-space characters. *)
Definition trimmed (p : string) : Prop :=
  p <> "" /\
  (forall c, string_head p = Some c -> space1 c = false) /\
  (forall c, string_last p = Some c -> space1 c = false).

(** The text of a file of lines. *)
Definition unlines (ls : list string) : string :=
  fold_right (fun l s => l +:+ String "010" s) "" ls.

(** Every character of the text satisfies [P]. *)
Definition chars_all (P : ascii -> bool) (s : string) : bool :=
  forallb P (list_ascii_of_string s).

(** A printed line. *)
Definition is_print (e : Event) : Prop :=
  match e with
  | EvPrint _ => True
  | _ => False
  end.

(** [m], run from [w], prints and then returns or leaves with status 1:
    it does not panic, writes no file and creates no directory. *)
Definition prints_only {A} (m : M A) (w : World) : Prop :=
  exists evs w',
    files w' = files w /\ dirs w' = dirs w /\ trace w' = trace w ++ evs /\
    Forall is_print evs /\
    (m w = Exited 1 w' \/ exists a, m w = Done a w').

(** * Test vectors *)

Example base32_foobar :
  Base32.EncodeToString (bytes_of_string "foobar") = "MZXW6YTBOI======".
Proof. vm_compute. reflexivity. Qed.

Example base32_foob :
  Base32.EncodeToString (bytes_of_string "foob") = "MZXW6YQ=".
Proof. vm_compute. reflexivity. Qed.

Example base64_fo : Base64.EncodeToString (bytes_of_string "fo") = "Zm8=".
Proof. vm_compute. reflexivity. Qed.

Example base64_high : Base64.EncodeToString [251; 255; 254] = "+//+".
Proof. vm_compute. reflexivity. Qed.

Example base32_roundtrip_foo :
  Base32.DecodeString (Base32.EncodeToString (bytes_of_string "fooba"))
  = Some (bytes_of_string "fooba").
Proof. vm_compute. reflexivity. Qed.

Example sha512_abc :
  SHA512.Sum512 (bytes_of_string "abc") =
  [221; 175; 53; 161; 147; 97; 122; 186; 204; 65; 115; 73; 174; 32; 65; 49;
   18; 230; 250; 78; 137; 169; 126; 162; 10; 158; 238; 230; 75; 85; 211; 154;
   33; 146; 153; 42; 39; 79; 193; 168; 54; 186; 60; 35; 163; 254; 235; 189;
   69; 77; 68; 35; 100; 60; 232; 14; 42; 154; 201; 79; 165; 76; 164; 159].
Proof. vm_compute. reflexivity. Qed.

Example sha512_two_blocks :
  SHA512.Sum512 (repeat 0 200) =
  [114; 104; 96; 88; 247; 101; 148; 27; 253; 160; 70; 247; 137; 10; 75; 112;
   208; 199; 164; 10; 20; 186; 167; 62; 187; 31; 220; 212; 124; 221; 201; 7;
   46; 84; 82; 241; 131; 178; 244; 25; 180; 113; 197; 176; 199; 215; 206; 7;
   75; 240; 184; 237; 0; 78; 191; 65; 140; 112; 89; 115; 126; 108; 9; 61].
Proof. vm_compute. reflexivity. Qed.

Example sha3_256_abc :
  SHA3.Sum256 (bytes_of_string "abc") =
  [58; 152; 93; 167; 79; 226; 37; 178; 4; 92; 23; 45; 107; 211; 144; 189;
   133; 95; 8; 110; 62; 157; 82; 91; 70; 191; 226; 69; 17; 67; 21; 50].
Proof. vm_compute. reflexivity. Qed.

Example sha3_256_two_blocks :
  SHA3.Sum256 (repeat 0 200) =
  [43; 67; 3; 108; 34; 155; 165; 18; 153; 95; 145; 253; 180; 111; 205; 83;
   39; 164; 220; 131; 77; 134; 214; 224; 245; 138; 8; 5; 51; 70; 220; 46].
Proof. vm_compute. reflexivity. Qed.

Example Atoi_vectors :
  List.map Atoi ["5"; "+5"; "-3"; "007"; "0"; "-0"; ""; "+"; "-"; "1_0"; " 5"; "5 "; "0x10";
                 "1e3"; "9223372036854775807"; "9223372036854775808";
                 "-9223372036854775808"; "-9223372036854775809"; "++1"]
  = [Some 5; Some 5; Some (-3); Some 7; Some 0; Some 0; None; None; None; None; None; None;
     None; None; Some 9223372036854775807; None; Some (-9223372036854775808); None; None].
Proof. vm_compute. reflexivity. Qed.

Example Itoa_vectors :
  List.map Itoa [0; 7; 12; 100; -305] = ["0"; "7"; "12"; "100"; "-305"].
Proof. vm_compute. reflexivity. Qed.

(** * Properties *)

(** ** The hashes return byte strings of their fixed sizes *)

Lemma Sum512_length (msg : list Z) : List.length (SHA512.Sum512 msg) = 64%nat.
Proof. unfold SHA512.Sum512. destruct (SHA512.digest msg). reflexivity. Qed.

Lemma digit_range (w n k : Z) : 0 <= w -> 0 <= digit w n k < 2 ^ w.
Proof.
  intros Hw. unfold digit. rewrite Z.land_ones by assumption.
  apply Z.mod_pos_bound. apply Z.pow_pos_nonneg; lia.
Qed.

Lemma be_bytes_ok (n : nat) (v : Z) : bytes_ok (be_bytes n v).
Proof.
  unfold bytes_ok, be_bytes. apply Forall_map, Forall_forall. intros k _.
  apply (digit_range 8); lia.
Qed.

Lemma Sum512_bytes_ok (msg : list Z) : bytes_ok (SHA512.Sum512 msg).
Proof.
  unfold SHA512.Sum512. destruct (SHA512.digest msg). unfold bytes_ok.
  cbn [flat_map]. rewrite !Forall_app. repeat split; try apply be_bytes_ok. constructor.
Qed.

(** ** Base32: arithmetic of a quantum, and decoding whole quanta *)

Lemma land_shiftl_small (a d w : Z) :
  0 <= w -> 0 <= d < 2 ^ w -> Z.land (Z.shiftl a w) d = 0.
Proof.
  intros Hw Hd. apply Z.bits_inj'. intros i Hi.
  rewrite Z.land_spec, Z.bits_0.
  destruct (Z.lt_ge_cases i w) as [Hlt | Hge].
  - rewrite Z.shiftl_spec_low by assumption. reflexivity.
  - destruct (Z.eq_dec d 0) as [-> | Hnz].
    + rewrite Z.bits_0. apply andb_false_r.
    + rewrite (Z.bits_above_log2 d i), andb_false_r; [reflexivity | lia |].
      apply Z.log2_lt_pow2; [lia |].
      apply Z.lt_le_trans with (2 ^ w); [lia | apply Z.pow_le_mono_r; lia].
Qed.

Lemma lor_shiftl_add (a d w : Z) :
  0 <= w -> 0 <= d < 2 ^ w -> Z.lor (Z.shiftl a w) d = a * 2 ^ w + d.
Proof.
  intros Hw Hd. pose proof (land_shiftl_small a d w Hw Hd) as Hland.
  rewrite <- Z.lxor_lor, <- Z.add_nocarry_lxor by assumption.
  rewrite Z.shiftl_mul_pow2 by assumption. reflexivity.
Qed.

Lemma digit_div_mod (w n k : Z) :
  0 <= w -> 0 <= k -> digit w n k = (n / 2 ^ (w * k)) mod 2 ^ w.
Proof.
  intros Hw Hk. unfold digit.
  rewrite Z.land_ones by assumption. rewrite Z.shiftr_div_pow2 by nia. reflexivity.
Qed.

Lemma be_value_5 (b0 b1 b2 b3 b4 : Z) :
  byte_ok b0 -> byte_ok b1 -> byte_ok b2 -> byte_ok b3 -> byte_ok b4 ->
  be_value [b0; b1; b2; b3; b4]
  = (((b0 * 256 + b1) * 256 + b2) * 256 + b3) * 256 + b4.
Proof.
  unfold byte_ok, be_value. intros. cbn [fold_left].
  rewrite !lor_shiftl_add by lia. change (2 ^ 8) with 256. lia.
Qed.

Lemma digits_value_8 (d7 d6 d5 d4 d3 d2 d1 d0 : Z) :
  0 <= d7 < 32 -> 0 <= d6 < 32 -> 0 <= d5 < 32 -> 0 <= d4 < 32 ->
  0 <= d3 < 32 -> 0 <= d2 < 32 -> 0 <= d1 < 32 -> 0 <= d0 < 32 ->
  Base32.digits_value [d7; d6; d5; d4; d3; d2; d1; d0]
  = ((((((d7 * 32 + d6) * 32 + d5) * 32 + d4) * 32 + d3) * 32 + d2) * 32 + d1) * 32 + d0.
Proof.
  unfold Base32.digits_value. intros. cbn [fold_left].
  rewrite !lor_shiftl_add by lia. change (2 ^ 5) with 32. lia.
Qed.

Lemma div_pow2_succ (n w k k' : Z) :
  0 < w -> 0 <= k -> k' = k + 1 -> n / 2 ^ (w * k') = n / 2 ^ (w * k) / 2 ^ w.
Proof.
  intros Hw Hk ->. rewrite Z.div_div by (try apply Z.pow_pos_nonneg; try apply Z.pow_nonzero; nia).
  rewrite <- Z.pow_add_r by nia. f_equal. f_equal. lia.
Qed.

Lemma digits5_recombine (n : Z) :
  0 <= n < 2 ^ 40 ->
  Base32.digits_value (List.map (digit 5 n) [7; 6; 5; 4; 3; 2; 1; 0]) = n.
Proof.
  intros Hn. cbn [List.map].
  rewrite digits_value_8 by (apply (digit_range 5); lia).
  rewrite !digit_div_mod by lia.
  rewrite (div_pow2_succ n 5 6 7), (div_pow2_succ n 5 5 6), (div_pow2_succ n 5 4 5),
    (div_pow2_succ n 5 3 4), (div_pow2_succ n 5 2 3), (div_pow2_succ n 5 1 2),
    (div_pow2_succ n 5 0 1) by lia.
  change (5 * 0) with 0. change (2 ^ 0) with 1. rewrite Z.div_1_r.
  change (2 ^ 5) with 32. change (2 ^ 40) with 1099511627776 in Hn.
  Z.div_mod_to_equations; lia.
Qed.

Lemma digits8_of_bytes (b0 b1 b2 b3 b4 : Z) :
  byte_ok b0 -> byte_ok b1 -> byte_ok b2 -> byte_ok b3 -> byte_ok b4 ->
  List.map (digit 8 (be_value [b0; b1; b2; b3; b4])) [4; 3; 2; 1; 0]
  = [b0; b1; b2; b3; b4].
Proof.
  intros H0 H1 H2 H3 H4. rewrite be_value_5 by assumption.
  set (n := (((b0 * 256 + b1) * 256 + b2) * 256 + b3) * 256 + b4).
  cbn [List.map]. rewrite !digit_div_mod by lia.
  rewrite (div_pow2_succ n 8 3 4), (div_pow2_succ n 8 2 3), (div_pow2_succ n 8 1 2),
    (div_pow2_succ n 8 0 1) by lia.
  change (8 * 0) with 0. change (2 ^ 0) with 1. rewrite Z.div_1_r.
  change (2 ^ 8) with 256. unfold byte_ok in *. subst n.
  repeat f_equal; Z.div_mod_to_equations; lia.
Qed.

Lemma be_value_5_range (b0 b1 b2 b3 b4 : Z) :
  byte_ok b0 -> byte_ok b1 -> byte_ok b2 -> byte_ok b3 -> byte_ok b4 ->
  0 <= be_value [b0; b1; b2; b3; b4] < 2 ^ 40.
Proof.
  intros. rewrite be_value_5 by assumption. unfold byte_ok in *.
  change (2 ^ 40) with 1099511627776. lia.
Qed.

Lemma unquantum_digits (b0 b1 b2 b3 b4 : Z) :
  byte_ok b0 -> byte_ok b1 -> byte_ok b2 -> byte_ok b3 -> byte_ok b4 ->
  Base32.unquantum
    (List.map (digit 5 (be_value [b0; b1; b2; b3; b4])) [7; 6; 5; 4; 3; 2; 1; 0])
  = [b0; b1; b2; b3; b4].
Proof.
  intros H0 H1 H2 H3 H4. unfold Base32.unquantum.
  rewrite digits5_recombine by (apply be_value_5_range; assumption).
  apply digits8_of_bytes; assumption.
Qed.

(** Checking a boolean property of the integers below a bound by
    running it on each of them. *)
Lemma forallb_below (n : nat) (P : Z -> bool) :
  forallb P (List.map Z.of_nat (seq 0 n)) = true ->
  forall v, 0 <= v < Z.of_nat n -> P v = true.
Proof.
  intros Hall v Hv. rewrite forallb_forall in Hall. apply Hall.
  apply in_map_iff. exists (Z.to_nat v). split; [lia |].
  apply in_seq. lia.
Qed.

Lemma base32_digit_roundtrip (v : Z) :
  0 <= v < 32 ->
  Base32.decode_digit (upper_ascii (lower_ascii (Base32.encode_digit v))) = Some v.
Proof.
  intros Hv.
  pose (P := fun v => bool_decide
    (Base32.decode_digit (upper_ascii (lower_ascii (Base32.encode_digit v))) = Some v)).
  apply (bool_decide_eq_true_1 _).
  apply (forallb_below 32 P); [vm_compute; reflexivity | exact Hv].
Qed.

Lemma base32_digit_lower (v : Z) :
  0 <= v < 32 -> in_lower_alphabet (lower_ascii (Base32.encode_digit v)) = true.
Proof.
  intros Hv.
  apply (forallb_below 32
           (fun v => in_lower_alphabet (lower_ascii (Base32.encode_digit v))));
    [vm_compute; reflexivity | exact Hv].
Qed.

Lemma ToLower_list (s : string) :
  list_ascii_of_string (ToLower s) = List.map lower_ascii (list_ascii_of_string s).
Proof. induction s as [| c s IH]; simpl; [reflexivity | rewrite IH; reflexivity]. Qed.

Lemma ToUpper_list (s : string) :
  list_ascii_of_string (ToUpper s) = List.map upper_ascii (list_ascii_of_string s).
Proof. induction s as [| c s IH]; simpl; [reflexivity | rewrite IH; reflexivity]. Qed.

Lemma string_length_list (s : string) :
  String.length s = List.length (list_ascii_of_string s).
Proof. induction s as [| c s IH]; simpl; [reflexivity | rewrite IH; reflexivity]. Qed.

(** Whole quanta: 8 characters for every 5 bytes, all of them in the
    lower-case alphabet once lowered, and decodable. *)
Lemma base32_whole_quanta (n : nat) :
  forall bs : list Z,
    List.length bs = (5 * n)%nat -> bytes_ok bs ->
    let cs := List.map lower_ascii (Base32.encode bs) in
    List.length cs = (8 * n)%nat /\
    forallb in_lower_alphabet cs = true /\
    Base32.decode (List.map upper_ascii cs) = Some bs.
Proof.
  induction n as [| n IH]; intros bs Hlen Hok.
  - destruct bs; [| discriminate]. repeat split.
  - destruct bs as [| b0 [| b1 [| b2 [| b3 [| b4 rest]]]]]; try (simpl in Hlen; lia).
    unfold bytes_ok in Hok.
    apply Forall_cons in Hok as [H0 Hok]. apply Forall_cons in Hok as [H1 Hok].
    apply Forall_cons in Hok as [H2 Hok]. apply Forall_cons in Hok as [H3 Hok].
    apply Forall_cons in Hok as [H4 Hok].
    destruct (IH rest) as (IHlen & IHlow & IHdec); [simpl in Hlen; lia | exact Hok |].
    change (Base32.encode (b0 :: b1 :: b2 :: b3 :: b4 :: rest))
      with (Base32.quantum b0 b1 b2 b3 b4 ++ Base32.encode rest).
    cbv zeta. rewrite List.map_app. unfold Base32.quantum.
    set (m := be_value [b0; b1; b2; b3; b4]).
    assert (Hd : forall k, 0 <= digit 5 m k < 32) by (intros k; apply (digit_range 5); lia).
    cbn [List.map app]. repeat split.
    + cbn [List.length]. rewrite IHlen. lia.
    + cbn [forallb]. rewrite !base32_digit_lower by apply Hd. exact IHlow.
    + cbn [Base32.decode mapM]. rewrite !base32_digit_roundtrip by apply Hd.
      cbn [mbind option_bind mret option_ret]. rewrite IHdec. cbn [mbind option_bind].
      f_equal.
      pose proof (unquantum_digits b0 b1 b2 b3 b4 H0 H1 H2 H3 H4) as Hu.
      fold m in Hu. cbn [List.map] in Hu. rewrite Hu. reflexivity.
Qed.

Lemma le_bytes_ok (n : nat) (v : Z) : bytes_ok (le_bytes n v).
Proof.
  unfold bytes_ok, le_bytes. apply Forall_map, Forall_forall. intros k _.
  apply (digit_range 8); lia.
Qed.

Lemma Sum256_length (msg : list Z) : List.length (SHA3.Sum256 msg) = 32%nat.
Proof. reflexivity. Qed.

Lemma Sum256_bytes_ok (msg : list Z) : bytes_ok (SHA3.Sum256 msg).
Proof.
  unfold SHA3.Sum256, bytes_ok. cbv zeta. cbn [flat_map seq].
  rewrite !Forall_app. repeat split; try apply le_bytes_ok. constructor.
Qed.

Lemma onion_checksum_ok (pk : list Z) : bytes_ok (onion_checksum pk).
Proof. apply Forall_take, Sum256_bytes_ok. Qed.

Lemma list_ascii_roundtrip (l : list ascii) :
  list_ascii_of_string (string_of_list_ascii l) = l.
Proof. apply list_ascii_of_string_of_list_ascii. Qed.

(** C1.  For every 32-byte public key, [encodePublicKey] returns the
    lower-case form of the base32 text of
    publicKey || checksum || 0x03, where checksum is the first 2 bytes
    of SHA3-256(".onion checksum" || publicKey || 0x03); the address has
    56 characters, all of the lower-case base32 alphabet, and reading it
    back gives the public key, that checksum and the version byte 0x03. *)
Theorem encodePublicKey_spec (publicKey : list Z) :
  List.length publicKey = 32%nat ->
  bytes_ok publicKey ->
  let checksum := onion_checksum publicKey in
  let addr := encodePublicKey publicKey in
  addr = ToLower (Base32.EncodeToString (publicKey ++ checksum ++ [0x03])) /\
  String.length addr = 56%nat /\
  forallb in_lower_alphabet (list_ascii_of_string addr) = true /\
  List.length checksum = 2%nat /\
  decodeOnionAddress addr = Some (publicKey, checksum, [0x03]).
Proof.
  intros Hlen Hok checksum addr.
  set (payload := publicKey ++ checksum ++ [0x03]).
  assert (Haddr : addr = ToLower (Base32.EncodeToString payload)) by reflexivity.
  assert (Hplen : List.length payload = (5 * 7)%nat).
  { unfold payload. rewrite !length_app, Hlen. reflexivity. }
  assert (Hpok : bytes_ok payload).
  { unfold payload, bytes_ok. rewrite !Forall_app. repeat split.
    - exact Hok.
    - apply onion_checksum_ok.
    - constructor; [unfold byte_ok; lia | constructor]. }
  destruct (base32_whole_quanta 7 payload Hplen Hpok) as (Hl & Hlow & Hdec).
  assert (Hcs : list_ascii_of_string addr = List.map lower_ascii (Base32.encode payload)).
  { rewrite Haddr, ToLower_list. unfold Base32.EncodeToString.
    rewrite list_ascii_roundtrip. reflexivity. }
  split; [exact Haddr | split; [| split; [| split]]].
  - rewrite string_length_list, Hcs. exact Hl.
  - rewrite Hcs. exact Hlow.
  - reflexivity.
  - unfold decodeOnionAddress, Base32.DecodeString.
    rewrite ToUpper_list, Hcs, Hdec. cbn [mbind option_bind].
    rewrite decide_True by exact Hplen.
    unfold payload. f_equal. f_equal; [f_equal |].
    + rewrite <- Hlen. rewrite firstn_app, Nat.sub_diag, firstn_all. simpl. apply app_nil_r.
    + rewrite <- Hlen, drop_app_length. reflexivity.
    + rewrite app_assoc. 
      replace 34%nat with (List.length (publicKey ++ checksum)) by (rewrite length_app, Hlen; reflexivity).
      apply drop_app_length.
Qed.

Lemma bytes_ok_check (bs : list Z) :
  forallb (fun b => (0 <=? b) && (b <? 256)) bs = true -> bytes_ok bs.
Proof.
  intros H. apply Forall_forall. intros b Hb.
  rewrite forallb_forall in H. apply list_elem_of_In in Hb.
  specialize (H b Hb). unfold byte_ok. lia.
Qed.

(** The address of the public key 00 01 .. 1f. *)
Lemma encodePublicKey_spec_witness :
  let publicKey := List.map Z.of_nat (seq 0 32) in
  encodePublicKey publicKey
    = "aaaqeayeaudaocajbifqydiob4ibceqtcqkrmfyydenbwha5dyp3kead" /\
  onion_checksum publicKey = [181; 16] /\
  decodeOnionAddress "aaaqeayeaudaocajbifqydiob4ibceqtcqkrmfyydenbwha5dyp3kead"
    = Some (publicKey, [181; 16], [0x03]).
Proof.
  intros publicKey.
  destruct (encodePublicKey_spec publicKey) as (H1 & H2 & H3 & H4 & H5).
  - reflexivity.
  - apply bytes_ok_check. reflexivity.
  - assert (Ha : encodePublicKey publicKey
      = "aaaqeayeaudaocajbifqydiob4ibceqtcqkrmfyydenbwha5dyp3kead") by (vm_compute; reflexivity).
    assert (Hc : onion_checksum publicKey = [181; 16]) by (vm_compute; reflexivity).
    rewrite Ha, Hc in H5. split; [exact Ha | split; [exact Hc | exact H5]].
Defined.

(** C2 (as amended).  For every 32-byte seed, and every private key
    that starts with it, [expandSecretKey] returns the 64 bytes of
    SHA-512(seed) with byte 0 and-ed with 248 and byte 31 and-ed with
    127 then or-ed with 64, every other byte unchanged: byte 0 has its
    low 3 bits clear and byte 31 (the last byte of the first half, not
    of the output) has its high bit clear and bit 6 set. *)
Theorem expandSecretKey_clamps (seed rest : list Z) :
  List.length seed = 32%nat ->
  let h := SHA512.Sum512 seed in
  let out := expandSecretKey (seed ++ rest) in
  List.length out = 64%nat /\
  out !! 0%nat = (fun b => Z.land b 248) <$> h !! 0%nat /\
  out !! 31%nat = (fun b => Z.lor (Z.land b 127) 64) <$> h !! 31%nat /\
  (forall i, i <> 0%nat -> i <> 31%nat -> out !! i = h !! i) /\
  (exists b0 b31, out !! 0%nat = Some b0 /\ out !! 31%nat = Some b31 /\
     Z.land b0 7 = 0 /\ Z.testbit b31 7 = false /\ Z.testbit b31 6 = true).
Proof.
  intros Hlen h out.
  assert (Hseed : firstn 32 (seed ++ rest) = seed).
  { rewrite <- Hlen. rewrite firstn_app, Nat.sub_diag, firstn_all. simpl. apply app_nil_r. }
  assert (Hout : out = alter (fun b => Z.lor b 64) 31%nat
                   (alter (fun b => Z.land b 127) 31%nat
                      (alter (fun b => Z.land b 248) 0%nat h))).
  { unfold out, expandSecretKey. rewrite Hseed. reflexivity. }
  assert (Hh : List.length h = 64%nat) by apply Sum512_length.
  assert (H0 : out !! 0%nat = (fun b => Z.land b 248) <$> h !! 0%nat).
  { rewrite Hout. rewrite !list_lookup_alter_ne by lia. apply list_lookup_alter_eq. }
  assert (H31 : out !! 31%nat = (fun b => Z.lor (Z.land b 127) 64) <$> h !! 31%nat).
  { rewrite Hout. rewrite !list_lookup_alter_eq. rewrite list_lookup_alter_ne by lia.
    destruct (h !! 31%nat); reflexivity. }
  split; [| split; [exact H0 | split; [exact H31 | split]]].
  - rewrite Hout. rewrite !length_alter. exact Hh.
  - intros i Hi0 Hi31. rewrite Hout. rewrite !list_lookup_alter_ne by congruence. reflexivity.
  - destruct (lookup_lt_is_Some_2 h 0%nat) as [x0 Hx0]; [lia|].
    destruct (lookup_lt_is_Some_2 h 31%nat) as [x31 Hx31]; [lia|].
    exists (Z.land x0 248), (Z.lor (Z.land x31 127) 64).
    rewrite H0, H31, Hx0, Hx31. repeat split.
    + rewrite <- Z.land_assoc. change (Z.land 248 7) with 0. apply Z.land_0_r.
    + rewrite Z.lor_spec, Z.land_spec. change (Z.testbit 127 7) with false.
      change (Z.testbit 64 7) with false. rewrite andb_false_r. reflexivity.
    + rewrite Z.lor_spec. change (Z.testbit 64 6) with true. apply orb_true_r.
Qed.

(** C9.  The expansion depends on the seed only: two 64-byte private
    keys with the same first 32 bytes expand to the same 64 bytes. *)
Theorem expandSecretKey_seed_only (k1 k2 : list Z) :
  List.length k1 = 64%nat -> List.length k2 = 64%nat ->
  firstn 32 k1 = firstn 32 k2 ->
  expandSecretKey k1 = expandSecretKey k2.
Proof. intros _ _ Heq. unfold expandSecretKey. rewrite Heq. reflexivity. Qed.

Lemma expandSecretKey_seed_only_witness :
  let seed := List.map Z.of_nat (seq 0 32) in
  seed ++ repeat 0 32 <> seed ++ repeat 255 32 /\
  expandSecretKey (seed ++ repeat 0 32) = expandSecretKey (seed ++ repeat 255 32).
Proof.
  intros seed. split; [intros H; apply (f_equal (fun l => nth 32 l 0)) in H; discriminate H |].
  apply expandSecretKey_seed_only; reflexivity.
Defined.

(** C2 as stated fails on the last byte of the output (byte 63), which
    the clamp does not touch: for the all-zero seed it is 211, high bit
    set. *)
Lemma expandSecretKey_last_byte_counterexample :
  let out := expandSecretKey (repeat 0 64) in
  List.last out 0 = 211 /\
  ~ (Z.testbit (List.last out 0) 7 = false /\ Z.testbit (List.last out 0) 6 = true).
Proof.
  assert (H : List.last (expandSecretKey (repeat 0 64)) 0 = 211) by (vm_compute; reflexivity).
  cbv zeta. rewrite H. split; [reflexivity |]. intros [H7 _]. discriminate H7.
Qed.

Lemma expandSecretKey_clamps_witness :
  let out := expandSecretKey (repeat 0 64) in
  List.length out = 64%nat /\ out !! 0%nat = Some 80 /\ out !! 31%nat = Some 86 /\
  out !! 63%nat = SHA512.Sum512 (repeat 0 32) !! 63%nat.
Proof.
  destruct (expandSecretKey_clamps (repeat 0 32) (repeat 0 32) eq_refl)
    as (Hl & H0 & H31 & Hrest & _).
  cbv zeta. change (repeat 0 32 ++ repeat 0 32) with (repeat 0 64) in *.
  split; [exact Hl | split; [| split]].
  - rewrite H0. vm_compute. reflexivity.
  - rewrite H31. vm_compute. reflexivity.
  - apply Hrest; discriminate.
Defined.

(** ** The Tor writer *)

Ltac run :=
  cbv [saveTorFormat os_MkdirAll ioutil_WriteFile os_OpenFile writer_WriteString
       writer_Flush fmt_Print send checkErr panic os_Exit emit next_fault set_file
       add_dir get_file bind ret hd tl negb files dirs faults trace io_error
       world_of fst snd].

Lemma append_inj_l (s t u : string) : s +:+ t = s +:+ u -> t = u.
Proof. induction s as [| c s IH]; simpl; intros H; [exact H | injection H; auto]. Qed.

(** C3.  When [saveTorFormat] returns, the secret-key file holds the 29
    ASCII bytes "== ed25519v1-secret: type0 ==", three zero bytes and
    the expanded key (96 bytes for a 64-byte key), the public-key file
    holds the 29 ASCII bytes "== ed25519v1-public: type0 ==", three zero
    bytes and the public key (64 bytes for a 32-byte key), and the
    hostname file holds the address followed by ".onion" and a newline. *)
Theorem saveTorFormat_files (onionAddress : string) (publicKey secretKey : list Z)
    (w w' : World) :
  saveTorFormat onionAddress publicKey secretKey w = Done tt w' ->
  files w' !! (onionAddress +:+ "/hs_ed25519_secret_key")
    = Some (bytes_of_string "== ed25519v1-secret: type0 ==" ++ [0; 0; 0] ++ secretKey) /\
  files w' !! (onionAddress +:+ "/hs_ed25519_public_key")
    = Some (bytes_of_string "== ed25519v1-public: type0 ==" ++ [0; 0; 0] ++ publicKey) /\
  files w' !! (onionAddress +:+ "/hostname")
    = Some (bytes_of_string (onionAddress +:+ ".onion" +:+ String "010" "")) /\
  List.length (bytes_of_string "== ed25519v1-secret: type0 ==") = 29%nat /\
  List.length (bytes_of_string "== ed25519v1-public: type0 ==") = 29%nat /\
  (List.length secretKey = 64%nat ->
   List.length (bytes_of_string "== ed25519v1-secret: type0 ==" ++ [0; 0; 0] ++ secretKey)
     = 96%nat) /\
  (List.length publicKey = 32%nat ->
   List.length (bytes_of_string "== ed25519v1-public: type0 ==" ++ [0; 0; 0] ++ publicKey)
     = 64%nat).
Proof.
  intros Hrun.
  assert (Hfiles : files w' =
    <[onionAddress +:+ "/hostname" :=
        bytes_of_string (onionAddress +:+ ".onion" +:+ String "010" "")]>
      (<[onionAddress +:+ "/hs_ed25519_public_key" :=
          (bytes_of_string "== ed25519v1-public: type0 ==" ++ [0; 0; 0]) ++ publicKey]>
        (<[onionAddress +:+ "/hs_ed25519_secret_key" :=
            (bytes_of_string "== ed25519v1-secret: type0 ==" ++ [0; 0; 0]) ++ secretKey]>
          (files w)))).
  { destruct w as [fs ds fl tr]. revert Hrun.
    destruct fl as [| f0 [| f1 [| f2 [| f3 fl]]]];
      repeat match goal with f : bool |- _ => destruct f end;
      run; intros Hrun; try discriminate Hrun;
      injection Hrun as <-; reflexivity. }
  rewrite Hfiles. repeat split.
  - rewrite !lookup_insert_ne by (intros H; apply append_inj_l in H; discriminate H).
    rewrite lookup_insert_eq, <- app_assoc. reflexivity.
  - rewrite lookup_insert_ne by (intros H; apply append_inj_l in H; discriminate H).
    rewrite lookup_insert_eq, <- app_assoc. reflexivity.
  - apply lookup_insert_eq.
  - intros Hl. rewrite !length_app, Hl. reflexivity.
  - intros Hl. rewrite !length_app, Hl. reflexivity.
Qed.

(** X5.  A failed write of any of the three files panics; the result
    of [os.MkdirAll] (fault 0) has no part in how the function ends:
    [saveTorFormat] panics exactly when one of its three writes fails,
    and returns otherwise. *)
Lemma saveTorFormat_outcome (onionAddress : string) (publicKey secretKey : list Z)
    (w : World) :
  let failed i := nth i (faults w) false in
  if failed 1%nat || failed 2%nat || failed 3%nat
  then exists w', saveTorFormat onionAddress publicKey secretKey w = Panicked w'
  else exists w', saveTorFormat onionAddress publicKey secretKey w = Done tt w'.
Proof.
  destruct w as [fs ds fl tr].
  destruct fl as [| f0 [| f1 [| f2 [| f3 fl]]]];
    repeat match goal with f : bool |- _ => destruct f end;
    cbv [nth faults orb]; run; eexists; reflexivity.
Qed.

Lemma expandSecretKey_length (secretKey : list Z) :
  List.length (expandSecretKey secretKey) = 64%nat.
Proof. unfold expandSecretKey. rewrite !length_alter. apply Sum512_length. Qed.

Lemma saveTorFormat_files_witness :
  let publicKey := repeat 0 32 in
  let secretKey := expandSecretKey (repeat 0 64) in
  let onionAddress := encodePublicKey publicKey in
  let w' := world_of (saveTorFormat onionAddress publicKey secretKey empty_world) in
  files w' !! (onionAddress +:+ "/hostname")
    = Some (bytes_of_string (onionAddress +:+ ".onion" +:+ String "010" "")) /\
  List.length (bytes_of_string "== ed25519v1-secret: type0 ==" ++ [0; 0; 0] ++ secretKey)
    = 96%nat /\
  List.length (bytes_of_string "== ed25519v1-public: type0 ==" ++ [0; 0; 0] ++ publicKey)
    = 64%nat.
Proof.
  intros publicKey secretKey onionAddress w'.
  destruct (saveTorFormat_files onionAddress publicKey secretKey empty_world w')
    as (_ & _ & Hhost & _ & _ & Hsec & Hpub).
  - reflexivity.
  - split; [exact Hhost | split].
    + apply Hsec. apply expandSecretKey_length.
    + apply Hpub. reflexivity.
Defined.


(** ** Events: what a computation adds to the trace *)

Lemma new_events_intro {A} (m : M A) (w : World) (evs : list Event) :
  trace (world_of (m w)) = trace w ++ evs -> new_events m w = evs.
Proof. intros H. unfold new_events. rewrite H. apply drop_app_length. Qed.

Section Emits.
Context {A B : Type} (P : Event -> Prop).

Lemma emits_ret (Q : A -> Prop) (a : A) : Q a -> emits P Q (ret a).
Proof.
  intros HQ w. exists []. cbn. rewrite app_nil_r. repeat split; [constructor |].
  intros a' w' H. injection H as <- _. exact HQ.
Qed.

Lemma emits_panic (Q : A -> Prop) : emits P Q panic.
Proof.
  intros w. exists []. cbn. rewrite app_nil_r. repeat split; [constructor |].
  intros a' w' H. discriminate H.
Qed.

Lemma emits_exit (Q : A -> Prop) (code : Z) : emits P Q (os_Exit code).
Proof.
  intros w. exists []. cbn. rewrite app_nil_r. repeat split; [constructor |].
  intros a' w' H. discriminate H.
Qed.

Lemma emits_bind (Q : A -> Prop) (R : B -> Prop) (m : M A) (k : A -> M B) :
  emits P Q m -> (forall a, Q a -> emits P R (k a)) -> emits P R (bind m k).
Proof.
  intros Hm Hk w. destruct (Hm w) as (evs1 & Ht1 & HP1 & HQ). unfold bind.
  destruct (m w) as [a w1 | w1 | c w1] eqn:Hrun; cbn in Ht1.
  - destruct (Hk a (HQ a w1 eq_refl) w1) as (evs2 & Ht2 & HP2 & HR).
    exists (evs1 ++ evs2). rewrite Ht2, Ht1, app_assoc.
    repeat split; [apply Forall_app; split; assumption | exact HR].
  - exists evs1. repeat split; [exact Ht1 | exact HP1 | discriminate].
  - exists evs1. repeat split; [exact Ht1 | exact HP1 | discriminate].
Qed.

End Emits.

Lemma emits_emit (P : Event -> Prop) (e : Event) : P e -> emits P any (emit e).
Proof.
  intros HP w. exists [e]. cbn. repeat split. constructor; [exact HP | constructor].
Qed.

Lemma emits_quiet {A} (P : Event -> Prop) (m : M A) :
  (forall w, trace (world_of (m w)) = trace w) -> emits P any m.
Proof.
  intros H w. exists []. rewrite app_nil_r. repeat split; [apply H | constructor].
Qed.

Lemma emits_next_fault (P : Event -> Prop) : emits P any next_fault.
Proof. apply emits_quiet. reflexivity. Qed.

Lemma emits_set_file (P : Event -> Prop) path data : emits P any (set_file path data).
Proof. apply emits_quiet. reflexivity. Qed.

Lemma emits_add_dir (P : Event -> Prop) path : emits P any (add_dir path).
Proof. apply emits_quiet. reflexivity. Qed.

Lemma emits_get_file (P : Event -> Prop) path : emits P any (get_file path).
Proof. apply emits_quiet. reflexivity. Qed.

Lemma emits_checkErr (P : Event -> Prop) (err : error) : emits P any (checkErr err).
Proof. destruct err; [apply emits_panic | apply emits_ret; exact I]. Qed.

Ltac emits_step :=
  match goal with
  | |- emits _ _ (bind _ _) => eapply emits_bind; [| intros ? _]
  | |- emits _ _ (ret _) => first [apply (emits_ret _ any); exact I | apply emits_ret]
  | |- emits _ _ panic => apply emits_panic
  | |- emits _ _ (os_Exit _) => apply emits_exit
  | |- emits _ _ next_fault => apply emits_next_fault
  | |- emits _ _ (set_file _ _) => apply emits_set_file
  | |- emits _ _ (add_dir _) => apply emits_add_dir
  | |- emits _ _ (get_file _) => apply emits_get_file
  | |- emits _ _ (checkErr _) => apply emits_checkErr
  | |- emits _ _ (emit _) => apply emits_emit
  | |- emits _ _ (fmt_Print _) => apply emits_emit
  | |- emits _ _ (send _) => apply emits_emit
  | |- emits _ _ (if ?b then _ else _) => destruct b
  | |- emits _ _ (match ?x with _ => _ end) => destruct x
  end.

Lemma emits_saveTorFormat (P : Event -> Prop) addr pk sk :
  (forall path ok, P (EvMkdirAll path ok)) ->
  (forall path data ok, P (EvWriteFile path data ok)) ->
  emits P any (saveTorFormat addr pk sk).
Proof.
  intros Hm Hw. unfold saveTorFormat, os_MkdirAll, ioutil_WriteFile.
  repeat emits_step; auto.
Qed.

Lemma HasPrefix_extends (s p : string) : HasPrefix s p = true <-> extends s p.
Proof.
  revert s. induction p as [| a p IH]; intros s.
  - split; [intros _; exists s; reflexivity | reflexivity].
  - destruct s as [| b s]; simpl.
    + split; [discriminate | intros [t Ht]; discriminate Ht].
    + destruct (Ascii.eqb_spec a b) as [-> | Hne].
      * rewrite IH. split; intros [t Ht]; exists t.
        -- simpl. rewrite Ht. reflexivity.
        -- simpl in Ht. injection Ht as ->. reflexivity.
      * split; [discriminate |]. intros [t Ht]. simpl in Ht. injection Ht as Hab _.
        congruence.
Qed.

(** C6.  The prefix loop is first-match-wins: either it sends exactly
    one record, for the first prefix in list order that the address
    extends, or the address extends none of the prefixes and nothing is
    sent.  With prefixes "ab", "a" and an address that starts with "abc"
    the record is for "ab". *)
Theorem scan_prefixes_first_match (prefixes : list string) (onionAddress : string)
    (secretKey : list Z) (attempts elapsed : Z) (w : World) :
  ((exists before prefix after,
      prefixes = before ++ prefix :: after /\
      extends onionAddress prefix /\
      Forall (fun q => ~ extends onionAddress q) before /\
      scan_prefixes prefixes onionAddress secretKey attempts elapsed w
        = Done tt (log w [EvSend (match_record prefix onionAddress secretKey
                                    attempts elapsed)]))
   \/
   (Forall (fun q => ~ extends onionAddress q) prefixes /\
    scan_prefixes prefixes onionAddress secretKey attempts elapsed w = Done tt w))
  /\
  (forall rest : string,
      scan_prefixes ["ab"; "a"] ("abc" +:+ rest) secretKey attempts elapsed w
      = Done tt (log w [EvSend (match_record "ab" ("abc" +:+ rest) secretKey
                                  attempts elapsed)])).
Proof.
  split; [| intros rest; reflexivity].
  induction prefixes as [| p ps IH].
  - right. split; [constructor | reflexivity].
  - cbn [scan_prefixes]. destruct (HasPrefix onionAddress p) eqn:Hp.
    + left. exists [], p, ps.
      split; [reflexivity | split; [| split; [constructor | reflexivity]]].
      apply HasPrefix_extends. exact Hp.
    + assert (Hn : ~ extends onionAddress p).
      { intros He. apply HasPrefix_extends in He. congruence. }
      destruct IH as [(before & q & after & Heq & Hq & Hb & Hrun) | (Hall & Hrun)].
      * left. exists (p :: before), q, after. subst ps.
        split; [reflexivity | split; [exact Hq | split; [| exact Hrun]]].
        constructor; assumption.
      * right. split; [constructor; assumption | exact Hrun].
Qed.

Lemma emits_mono {A} (P P' : Event -> Prop) (Q : A -> Prop) (m : M A) :
  (forall e, P e -> P' e) -> emits P Q m -> emits P' Q m.
Proof.
  intros HP Hm w. destruct (Hm w) as (evs & Ht & Hall & Hr).
  exists evs. repeat split; [exact Ht | | exact Hr].
  eapply Forall_impl; [exact Hall | exact HP].
Qed.

Lemma emits_new_events {A} (P : Event -> Prop) (Q : A -> Prop) (m : M A) (w : World) :
  emits P Q m -> Forall P (new_events m w).
Proof.
  intros Hm. destruct (Hm w) as (evs & Ht & Hall & _).
  rewrite (new_events_intro m w evs Ht). exact Hall.
Qed.

Lemma emits_scan_prefixes (P : Event -> Prop) prefixes addr sk attempts elapsed :
  (forall p, In p prefixes -> HasPrefix addr p = true ->
             P (EvSend (match_record p addr sk attempts elapsed))) ->
  emits P any (scan_prefixes prefixes addr sk attempts elapsed).
Proof.
  induction prefixes as [| p ps IH]; intros HP; cbn [scan_prefixes].
  - apply emits_ret. exact I.
  - destruct (HasPrefix addr p) eqn:Hp.
    + apply emits_emit. apply HP; [left; reflexivity | exact Hp].
    + apply IH. intros q Hq. apply HP. right. exact Hq.
Qed.

Lemma generate_body_emits re prefixes outputMode outputPath attempts d :
  emits (fun e => forall m, e = EvSend m -> sent_ok prefixes (uint64 (attempts + 1)) m)
        (fun a => a = uint64 (attempts + 1))
        (generate_body re prefixes outputMode outputPath attempts d).
Proof.
  unfold generate_body.
  eapply emits_bind; [apply emits_checkErr | intros _ _].
  eapply emits_bind; [| intros _ _; apply emits_ret; reflexivity].
  destruct prefixes as [| p ps]; cbn [List.length Nat.ltb Nat.leb].
  - assert (Hs : forall m,
      sent_ok [] (uint64 (attempts + 1))
        (match_record "" (encodePublicKey (draw_publicKey d)) (draw_secretKey d)
           (uint64 (attempts + 1)) m)).
    { intros m. repeat split. intros H. contradiction. }
    destruct re as [r |]; [| apply (emits_ret _ any); exact I].
    destruct (r _); [| apply (emits_ret _ any); exact I].
    eapply emits_bind; [apply emits_emit; intros m H; discriminate H | intros _ _].
    eapply emits_bind; [| intros _ _; apply emits_emit; intros m H; injection H as <-; apply Hs].
    destruct (decide (outputMode = TorMode)).
    + apply emits_saveTorFormat; intros; discriminate.
    + apply (emits_ret _ any). exact I.
  - apply emits_scan_prefixes. intros q _ Hq m H. injection H as <-.
    repeat split.
    + intros _. apply HasPrefix_extends. exact Hq.
    + intros H. discriminate H.
Qed.

Lemma generate_from_emits re prefixes outputMode outputPath draws :
  forall attempts,
    0 <= attempts -> attempts + Z.of_nat (List.length draws) < 2 ^ 64 ->
    emits (fun e => forall m, e = EvSend m ->
                    exists n, attempts < n <= attempts + Z.of_nat (List.length draws) /\
                              sent_ok prefixes n m)
          any
          (generate_from re prefixes outputMode outputPath attempts draws).
Proof.
  induction draws as [| d draws IH]; intros attempts H0 Hlt; cbn [generate_from].
  - apply emits_ret. exact I.
  - assert (Hu : uint64 (attempts + 1) = attempts + 1).
    { unfold uint64. apply Z.mod_small. cbn [List.length] in Hlt. lia. }
    eapply emits_bind.
    + eapply emits_mono; [| apply generate_body_emits].
      cbn beta. intros e He m Hm. exists (attempts + 1). rewrite <- Hu at 3.
      split; [cbn [List.length]; lia | apply He, Hm].
    + intros a ->. rewrite Hu. eapply emits_mono; [| apply IH].
      * cbn beta. intros e He m Hm. destruct (He m Hm) as (n & Hn & Hs).
        exists n. split; [cbn [List.length]; lia | exact Hs].
      * lia.
      * cbn [List.length] in Hlt. lia.
Qed.

(** C10.  Every record a worker sends has an attempt count of at least
    1 (at most the number of turns made); with a prefix list its
    [Prefix] is a prefix of its [OnionAddr], without one its [Prefix] is
    empty.  The counter is a [uint64]: the statement is for runs of
    fewer than 2^64 turns. *)
Theorem generate_sent_records re prefixes outputMode outputPath draws (w : World) :
  Z.of_nat (List.length draws) < 2 ^ 64 ->
  forall m,
    In (EvSend m) (new_events (generate re prefixes outputMode outputPath draws) w) ->
    1 <= Attempts m <= Z.of_nat (List.length draws) /\
    (prefixes <> [] -> extends (OnionAddr m) (Prefix m)) /\
    (prefixes = [] -> Prefix m = "").
Proof.
  intros Hlt m Hin.
  pose proof (emits_new_events _ _ _ w
    (generate_from_emits re prefixes outputMode outputPath draws 0 ltac:(lia) ltac:(lia)))
    as Hall.
  rewrite List.Forall_forall in Hall.
  destruct (Hall _ Hin m eq_refl) as (n & Hn & Ha & Hp & He).
  split; [lia | split; assumption].
Qed.

(** ** The worker: when the Tor files are written *)

Ltac run_body :=
  cbv [generate_body scan_prefixes draw_publicKey draw_secretKey draw_err draw_elapsed
       List.length Nat.ltb Nat.leb];
  run.

Ltac events_of :=
  erewrite new_events_intro by (run_body; rewrite <- ?app_assoc; reflexivity).

Lemma generate_body_prefix_quiet re p ps outputMode outputPath attempts d :
  emits (fun e => is_tor_write e = false) any
        (generate_body re (p :: ps) outputMode outputPath attempts d).
Proof.
  unfold generate_body.
  eapply emits_bind; [apply emits_checkErr | intros _ _].
  eapply emits_bind; [| intros _ _; apply (emits_ret _ any); exact I].
  cbn [List.length Nat.ltb Nat.leb].
  apply emits_scan_prefixes. reflexivity.
Qed.

Lemma tor_files_written_tor_write addr evs :
  tor_files_written addr evs -> Exists (fun e => is_tor_write e = true) evs.
Proof.
  intros (d1 & d2 & d3 & H1 & _). apply Exists_exists.
  exists (EvWriteFile (addr +:+ "/hs_ed25519_secret_key") d1 true).
  split; [apply list_elem_of_In; exact H1 | reflexivity].
Qed.

Lemma quiet_not_written addr evs :
  Forall (fun e => is_tor_write e = false) evs -> ~ tor_files_written addr evs.
Proof.
  intros Hq Hw. apply tor_files_written_tor_write in Hw.
  apply Exists_exists in Hw as (e & He & Ht).
  rewrite Forall_forall in Hq. specialize (Hq e He). congruence.
Qed.

(** The regular-expression branch in Tor mode: either the three files
    are written and then the record is sent, or nothing is sent. *)
Lemma generate_body_regex_tor (r : Regexp) pk sk elapsed outputPath attempts w :
  r (encodePublicKey pk) = true ->
  let d := {| draw_publicKey := pk; draw_secretKey := sk; draw_err := None;
              draw_elapsed := elapsed |} in
  let addr := encodePublicKey pk in
  let evs := new_events (generate_body (Some r) [] TorMode outputPath attempts d) w in
  (exists ok,
      evs = [EvPrint addr; EvMkdirAll addr ok;
             EvWriteFile (addr +:+ "/hs_ed25519_secret_key")
               ((bytes_of_string "== ed25519v1-secret: type0 ==" ++ [0; 0; 0])
                  ++ expandSecretKey sk) true;
             EvWriteFile (addr +:+ "/hs_ed25519_public_key")
               ((bytes_of_string "== ed25519v1-public: type0 ==" ++ [0; 0; 0]) ++ pk) true;
             EvWriteFile (addr +:+ "/hostname")
               (bytes_of_string (addr +:+ ".onion" +:+ String "010" "")) true;
             EvSend (match_record "" addr sk (uint64 (attempts + 1)) elapsed)])
  \/ (forall m, ~ In (EvSend m) evs).
Proof.
  intros Hr d addr evs. subst evs d addr.
  destruct w as [fs ds fl tr].
  destruct fl as [| f0 [| f1 [| f2 [| f3 fl]]]];
    repeat match goal with f : bool |- _ => destruct f end.
  all: erewrite new_events_intro
    by (run_body; rewrite Hr; rewrite decide_True by reflexivity; run;
        rewrite <- ?app_assoc; reflexivity).
  all: first [ left; eexists; reflexivity
             | right; intros m Hin; cbn in Hin; intuition discriminate ].
Qed.

Lemma generate_body_regex_other (r : Regexp) pk sk elapsed outputMode outputPath attempts w :
  r (encodePublicKey pk) = true ->
  outputMode <> TorMode ->
  let d := {| draw_publicKey := pk; draw_secretKey := sk; draw_err := None;
              draw_elapsed := elapsed |} in
  let addr := encodePublicKey pk in
  new_events (generate_body (Some r) [] outputMode outputPath attempts d) w
  = [EvPrint addr; EvSend (match_record "" addr sk (uint64 (attempts + 1)) elapsed)].
Proof.
  intros Hr Hmode d addr. subst d addr. destruct w as [fs ds fl tr].
  apply new_events_intro. run_body. rewrite Hr.
  rewrite decide_False by exact Hmode. run.
  rewrite <- ?app_assoc. reflexivity.
Qed.

Lemma generate_body_silent re outputMode outputPath attempts d w :
  draw_err d <> None \/ re = None \/
  (exists r, re = Some r /\ r (encodePublicKey (draw_publicKey d)) = false) ->
  new_events (generate_body re [] outputMode outputPath attempts d) w = [].
Proof.
  intros H. destruct d as [pk sk err el], w as [fs ds fl tr].
  apply new_events_intro. rewrite app_nil_r.
  destruct err as [msg |]; [reflexivity |].
  destruct H as [H | [-> | (r & -> & Hr)]]; [contradiction | reflexivity |].
  run_body. cbn [draw_publicKey] in Hr. rewrite Hr. reflexivity.
Qed.

(** C7.  In one turn of the worker loop: with a prefix list no event of
    the Tor writer occurs, whatever the output mode; and for a record
    that is sent, the three Tor files were written if and only if the
    output mode is Tor and there is no prefix list (the regular
    expression is in use), in which case they were all written before
    the record was sent. *)
Theorem generate_body_tor_persistence re prefixes outputMode outputPath attempts d w :
  let evs := new_events (generate_body re prefixes outputMode outputPath attempts d) w in
  (prefixes <> [] -> Forall (fun e => is_tor_write e = false) evs) /\
  (forall m, In (EvSend m) evs ->
     (tor_files_written (OnionAddr m) evs <-> outputMode = TorMode /\ prefixes = []) /\
     (outputMode = TorMode -> prefixes = [] ->
      exists pre, evs = pre ++ [EvSend m] /\ tor_files_written (OnionAddr m) pre)).
Proof.
  intros evs.
  assert (Hquiet : prefixes <> [] -> Forall (fun e => is_tor_write e = false) evs).
  { intros Hne. destruct prefixes as [| p ps]; [contradiction |].
    apply (emits_new_events _ any), generate_body_prefix_quiet. }
  split; [exact Hquiet |]. intros m Hin.
  destruct prefixes as [| p ps].
  2:{ assert (Hq := Hquiet ltac:(discriminate)). split.
      - split; [intros Hw; exfalso; exact (quiet_not_written _ _ Hq Hw) |].
        intros [_ H]; discriminate H.
      - intros _ H; discriminate H. }
  clear Hquiet.
  destruct d as [pk sk err el].
  destruct err as [msg |].
  { unfold evs in Hin. rewrite generate_body_silent in Hin by (left; discriminate).
    destruct Hin. }
  destruct re as [r |].
  2:{ unfold evs in Hin. rewrite generate_body_silent in Hin by (right; left; reflexivity).
      destruct Hin. }
  destruct (r (encodePublicKey pk)) eqn:Hr.
  2:{ unfold evs in Hin.
      rewrite generate_body_silent in Hin by (right; right; exists r; split; [reflexivity | exact Hr]).
      destruct Hin. }
  destruct (decide (outputMode = TorMode)) as [-> | Hmode].
  - destruct (generate_body_regex_tor r pk sk el outputPath attempts w Hr)
      as [(ok & Hevs) | Hnone]; [| exfalso; exact (Hnone m Hin)].
    fold evs in Hevs. rewrite Hevs in Hin |- *.
    assert (Hm : m = match_record "" (encodePublicKey pk) sk (uint64 (attempts + 1)) el).
    { cbn in Hin. destruct Hin as [H | [H | [H | [H | [H | [H | []]]]]]];
        try discriminate H. injection H as <-. reflexivity. }
    subst m. cbn [OnionAddr match_record].
    split.
    + split; [intros _; split; reflexivity |]. intros _.
      do 3 eexists. cbn. auto 10.
    + intros _ _. eexists. split.
      * change (?a :: ?b :: ?c :: ?d :: ?e :: [?f]) with ([a; b; c; d; e] ++ [f]). reflexivity.
      * do 3 eexists. cbn. auto 10.
  - unfold evs in *. rewrite generate_body_regex_other in Hin |- * by assumption.
    split.
    + split; [| intros [H _]; contradiction].
      intros (d1 & d2 & d3 & H1 & _). cbn in H1. destruct H1 as [H | [H | []]]; discriminate H.
    + intros H; contradiction.
Qed.

(** ** The Bitcoin writer *)

Tactic Notation "run" "in" hyp(H) :=
  cbv [saveTorFormat os_MkdirAll ioutil_WriteFile os_OpenFile writer_WriteString
       writer_Flush fmt_Print send checkErr panic os_Exit emit next_fault set_file
       add_dir get_file bind ret hd tl negb files dirs faults trace io_error
       world_of fst snd] in H.

Lemma write_keys_done (outputFile : string) (ms : list PrefixMatch) :
  forall (buf : list Z) (w : World) (buf' : list Z) (w' : World),
    write_keys outputFile ms buf w = Done buf' w' ->
    buf' = buf ++ key_file (List.map PrivateKey ms) /\ files w' = files w.
Proof.
  induction ms as [| m ms IH]; intros buf w buf' w' Hrun.
  - injection Hrun as <- <-. cbn. rewrite app_nil_r. split; reflexivity.
  - destruct w as [fs ds fl tr]. cbn [write_keys] in Hrun.
    destruct fl as [| [|] fl]; run in Hrun; try discriminate Hrun.
    all: apply IH in Hrun as [-> Hf]; cbn [files] in Hf |- *; rewrite Hf.
    all: cbn [List.map key_file flat_map]; rewrite <- app_assoc; split; reflexivity.
Qed.

(** C4.  When [saveBitcoinFormatMulti] returns, the file at the output
    path ("onion_v3_private_key" when the path is empty) holds one line
    per match, in list order: "ED25519-V3:", the padded base64 text of
    the match's seed (what [generate] stores in [PrivateKey], see
    [generate_sent_keys]), and a newline. *)
Theorem saveBitcoinFormatMulti_file (seeds : list (list Z)) (ms : list PrefixMatch)
    (outputPath : string) (w w' : World) :
  List.map PrivateKey ms = List.map Base64.EncodeToString seeds ->
  saveBitcoinFormatMulti ms outputPath w = Done tt w' ->
  files w' !! (if decide (outputPath = "") then "onion_v3_private_key" else outputPath)
  = Some (flat_map (fun seed =>
            bytes_of_string ("ED25519-V3:" +:+ Base64.EncodeToString seed
                               +:+ String "010" "")) seeds).
Proof.
  intros Hkeys Hrun.
  set (outputFile := if decide (outputPath = "") then "onion_v3_private_key" else outputPath).
  assert (Hfile : files w' !! outputFile = Some (key_file (List.map PrivateKey ms))).
  { unfold saveBitcoinFormatMulti in Hrun. fold outputFile in Hrun.
    destruct w as [fs ds fl tr].
    destruct fl as [| [|] fl]; run in Hrun; try discriminate Hrun.
    all: revert Hrun.
    all: match goal with
         | |- context [write_keys ?f ?l [] ?w0] =>
             destruct (write_keys f l [] w0) as [buf w1 | w1 | c w1] eqn:Hw;
               try discriminate
         end.
    all: apply write_keys_done in Hw as [-> Hf]; cbn [files] in Hf.
    all: destruct w1 as [fs1 ds1 fl1 tr1]; cbn [files] in Hf; subst fs1.
    all: destruct fl1 as [| [|] fl1]; try discriminate.
    all: intros Hrun; injection Hrun as <-; cbn [files].
    all: rewrite !lookup_insert_eq; reflexivity. }
  rewrite Hfile, Hkeys. unfold key_file, key_line. rewrite flat_map_concat_map, List.map_map.
  rewrite <- flat_map_concat_map. reflexivity.
Qed.

Lemma saveBitcoinFormatMulti_file_witness :
  let seed := List.map Z.of_nat (seq 0 32) in
  let m := match_record "aaaq" (encodePublicKey seed) (seed ++ seed) 7 1000 in
  let w' := world_of (saveBitcoinFormatMulti [m] "" empty_world) in
  files w' !! "onion_v3_private_key"
  = Some (bytes_of_string
            ("ED25519-V3:AAECAwQFBgcICQoLDA0ODxAREhMUFRYXGBkaGxwdHh8=" +:+ String "010" "")).
Proof.
  intros seed m w'.
  pose proof (saveBitcoinFormatMulti_file [seed] [m] "" empty_world w') as H.
  cbn [decide] in H.
  assert (Hb : Base64.EncodeToString seed = "AAECAwQFBgcICQoLDA0ODxAREhMUFRYXGBkaGxwdHh8=")
    by (vm_compute; reflexivity).
  cbn [flat_map] in H. rewrite Hb, app_nil_r in H. apply H.
  - cbn [List.map PrivateKey m match_record]. f_equal. 
  - reflexivity.
Defined.

(** ** The collector *)

Lemma emits_write_keys (P : Event -> Prop) outputFile ms :
  (forall e, is_batch_write e = false -> P e) ->
  forall buf, emits P any (write_keys outputFile ms buf).
Proof.
  intros HP. induction ms as [| m ms IH]; intros buf; cbn [write_keys].
  - apply (emits_ret _ any). exact I.
  - unfold writer_WriteString.
    eapply emits_bind; [repeat emits_step; apply HP; reflexivity |].
    intros r _. destruct (snd r).
    + repeat emits_step. apply HP. reflexivity.
    + eapply emits_bind; [apply emits_emit, HP; reflexivity | intros _ _; apply IH].
Qed.

Lemma emits_saveBitcoinFormatMulti (P : Event -> Prop) ms outputPath :
  P (EvBatchWrite ms outputPath) ->
  (forall e, is_batch_write e = false -> P e) ->
  emits P any (saveBitcoinFormatMulti ms outputPath).
Proof.
  intros Hb HP. unfold saveBitcoinFormatMulti, os_OpenFile, writer_Flush.
  eapply emits_bind; [apply emits_emit, Hb | intros _ _].
  eapply emits_bind; [repeat emits_step; apply HP; reflexivity | intros err _].
  destruct err.
  - repeat emits_step. apply HP. reflexivity.
  - eapply emits_bind; [apply emits_write_keys, HP | intros buf _].
    eapply emits_bind; [repeat emits_step; apply HP; reflexivity | intros err _].
    destruct err; repeat emits_step; apply HP; reflexivity.
Qed.

Lemma int32_small (x : Z) : - 2 ^ 31 <= x < 2 ^ 31 -> int32 x = x.
Proof. intros H. unfold int32. rewrite Z.mod_small; lia. Qed.

Lemma collect_one_emits number outputMode outputPath st m :
  1 <= number < 2 ^ 31 ->
  collecting number st ->
  emits (fun e => forall ms p, e = EvBatchWrite ms p ->
                  Z.of_nat (List.length ms) = number /\ outputMode = BitcoinMode
                  /\ p = outputPath)
        (collecting number)
        (collect_one number outputMode outputPath st m).
Proof.
  intros Hn [Hc Hlt]. unfold collect_one.
  assert (Hlen : Z.of_nat (List.length (matches st ++ [m])) = matchCount st + 1).
  { rewrite length_app. cbn [List.length]. lia. }
  rewrite (int32_small number), (int32_small (matchCount st + 1)) by lia.
  destruct (Z.leb_spec number (matchCount st + 1)) as [Hle | Hgt].
  - eapply emits_bind; [| intros _ _; apply emits_exit].
    destruct (decide (outputMode = BitcoinMode)) as [Hm | Hm].
    + apply emits_saveBitcoinFormatMulti.
      * intros ms p H. injection H as <- <-. split; [lia | split; [exact Hm | reflexivity]].
      * intros e He ms p ->. discriminate He.
    + apply (emits_ret _ any). exact I.
  - apply emits_ret. split; cbn [matches matchCount]; lia.
Qed.

Lemma collect_emits number outputMode outputPath incoming :
  1 <= number < 2 ^ 31 ->
  forall st,
    collecting number st ->
    emits (fun e => forall ms p, e = EvBatchWrite ms p ->
                    Z.of_nat (List.length ms) = number /\ outputMode = BitcoinMode
                    /\ p = outputPath)
          any
          (collect number outputMode outputPath st incoming).
Proof.
  intros Hn. induction incoming as [| m rest IH]; intros st Hst; cbn [collect].
  - apply (emits_ret _ any). exact I.
  - eapply emits_bind; [apply collect_one_emits; assumption | exact IH].
Qed.

(** X15.  For a target that fits an [int32], the batch write is only
    ever entered with exactly [number] matches, in Bitcoin mode and for
    the configured output path. *)
Lemma collector_batch_exact number outputMode outputPath incoming (w : World) :
  1 <= number < 2 ^ 31 ->
  forall ms p,
    In (EvBatchWrite ms p) (new_events (collector number outputMode outputPath incoming) w) ->
    Z.of_nat (List.length ms) = number /\ outputMode = BitcoinMode /\ p = outputPath.
Proof.
  intros Hn ms p Hin.
  assert (Hinit : collecting number collector_init) by (split; cbn; lia).
  pose proof (emits_new_events _ _ _ w
    (collect_emits number outputMode outputPath incoming Hn collector_init Hinit)) as Hall.
  rewrite List.Forall_forall in Hall. exact (Hall _ Hin ms p eq_refl).
Qed.

(** C5, at the failing input.  With a target of 2^31 ([int] of 64
    bits) [int32(number)] is -2^31, and the first match already enters
    the batch write, with one match in the list. *)
Theorem collector_int32_wraps :
  let number := 2 ^ 31 in
  let m := match_record "aaaa" "aaaa" [] 1 1 in
  int32 number = - 2 ^ 31 /\
  new_events (collector number BitcoinMode "" [m]) empty_world
  = [EvBatchWrite [m] ""; EvOpenFile "onion_v3_private_key" true;
     EvWriteString "onion_v3_private_key" (key_line (PrivateKey m)) true;
     EvSummary m; EvFlush "onion_v3_private_key" true;
     EvPrint "Bitcoin format keys saved to onion_v3_private_key"] /\
  collector number BitcoinMode "" [m] empty_world
  = Exited 0 (world_of (collector number BitcoinMode "" [m] empty_world)) /\
  Z.of_nat (List.length [m]) < number.
Proof.
  intros number m. split; [reflexivity |]. split; [vm_compute; reflexivity |].
  split; [vm_compute; reflexivity | vm_compute; reflexivity].
Qed.

(** ** Concrete runs *)

Lemma generate_sent_records_witness :
  let zero := {| draw_publicKey := repeat 0 32; draw_secretKey := repeat 0 64;
                 draw_err := None; draw_elapsed := 5 |} in
  let other := {| draw_publicKey := List.map Z.of_nat (seq 0 32);
                  draw_secretKey := repeat 1 64;
                  draw_err := None; draw_elapsed := 3 |} in
  let m := match_record "aaaa" (encodePublicKey (repeat 0 32)) (repeat 0 64) 2 5 in
  let m' := match_record "aaa" (encodePublicKey (List.map Z.of_nat (seq 0 32)))
              (repeat 1 64) 1 3 in
  new_events (generate None ["b"; "aaaa"; "aaa"] BitcoinMode "" [other; zero]) empty_world
    = [EvSend m'; EvSend m] /\
  1 <= Attempts m <= 2 /\ extends (OnionAddr m) (Prefix m).
Proof.
  intros zero other m m'.
  assert (Hev : new_events (generate None ["b"; "aaaa"; "aaa"] BitcoinMode "" [other; zero])
                  empty_world = [EvSend m'; EvSend m]) by (vm_compute; reflexivity).
  split; [exact Hev |].
  destruct (generate_sent_records None ["b"; "aaaa"; "aaa"] BitcoinMode "" [other; zero]
              empty_world ltac:(cbn; lia) m) as (Ha & Hp & _).
  - rewrite Hev. right. left. reflexivity.
  - split; [exact Ha | apply Hp; discriminate].
Defined.

Lemma generate_body_tor_persistence_witness :
  let d := {| draw_publicKey := repeat 0 32; draw_secretKey := repeat 0 64;
              draw_err := None; draw_elapsed := 5 |} in
  let addr := encodePublicKey (repeat 0 32) in
  let m := match_record "" addr (repeat 0 64) 1 5 in
  let evs := new_events (generate_body (Some (fun s => HasPrefix s "aa")) [] TorMode "" 0 d)
               empty_world in
  In (EvSend m) evs /\
  tor_files_written addr evs /\
  exists pre, evs = pre ++ [EvSend m] /\ tor_files_written addr pre.
Proof.
  intros d addr m evs.
  assert (Hin : In (EvSend m) evs).
  { assert (He : last evs = Some (EvSend m)) by (vm_compute; reflexivity).
    apply last_Some in He as (pre & Hpre). rewrite Hpre.
    apply in_or_app. right. left. reflexivity. }
  destruct (generate_body_tor_persistence (Some (fun s => HasPrefix s "aa")) [] TorMode ""
              0 d empty_world) as (_ & H).
  destruct (H m Hin) as (Hiff & Hord).
  split; [exact Hin | split].
  - apply Hiff. split; reflexivity.
  - apply Hord; reflexivity.
Defined.

(** ** What the worker puts in a record *)

Lemma generate_body_keys re prefixes outputMode outputPath attempts d :
  emits (fun e => forall m, e = EvSend m ->
                  PrivateKey m = Base64.EncodeToString (firstn 32 (draw_secretKey d)) /\
                  OnionAddr m = encodePublicKey (draw_publicKey d) /\
                  ElapsedTime m = draw_elapsed d)
        any
        (generate_body re prefixes outputMode outputPath attempts d).
Proof.
  unfold generate_body.
  eapply emits_bind; [apply emits_checkErr | intros _ _].
  eapply emits_bind; [| intros _ _; apply (emits_ret _ any); exact I].
  destruct prefixes as [| p ps]; cbn [List.length Nat.ltb Nat.leb].
  - destruct re as [r |]; [| apply (emits_ret _ any); exact I].
    destruct (r _); [| apply (emits_ret _ any); exact I].
    eapply emits_bind; [apply emits_emit; intros m H; discriminate H | intros _ _].
    eapply emits_bind;
      [| intros _ _; apply emits_emit; intros m H; injection H as <-; repeat split].
    destruct (decide (outputMode = TorMode)).
    + apply emits_saveTorFormat; intros; discriminate.
    + apply (emits_ret _ any). exact I.
  - apply emits_scan_prefixes. intros q _ Hq m H. injection H as <-. repeat split.
Qed.

Lemma generate_from_keys re prefixes outputMode outputPath draws :
  forall attempts,
    emits (fun e => forall m, e = EvSend m ->
                    exists d, In d draws /\
                      PrivateKey m = Base64.EncodeToString (firstn 32 (draw_secretKey d)) /\
                      OnionAddr m = encodePublicKey (draw_publicKey d) /\
                      ElapsedTime m = draw_elapsed d)
          any
          (generate_from re prefixes outputMode outputPath attempts draws).
Proof.
  induction draws as [| d draws IH]; intros attempts; cbn [generate_from].
  - apply (emits_ret _ any). exact I.
  - eapply emits_bind.
    + eapply emits_mono; [| apply generate_body_keys].
      cbn beta. intros e He m Hm. exists d. split; [left; reflexivity | apply He, Hm].
    + intros a _. eapply emits_mono; [| apply IH].
      cbn beta. intros e He m Hm. destruct (He m Hm) as (d' & Hd & Hk).
      exists d'. split; [right; exact Hd | exact Hk].
Qed.

(** Every record a worker sends carries the base64 text of the seed
    (the first 32 bytes of the private key) of one of its draws, with
    the address of that draw's public key. *)
Lemma generate_sent_keys re prefixes outputMode outputPath draws (w : World) (m : PrefixMatch) :
  In (EvSend m) (new_events (generate re prefixes outputMode outputPath draws) w) ->
  exists d, In d draws /\
    PrivateKey m = Base64.EncodeToString (firstn 32 (draw_secretKey d)) /\
    OnionAddr m = encodePublicKey (draw_publicKey d) /\
    ElapsedTime m = draw_elapsed d.
Proof.
  intros Hin.
  pose proof (emits_new_events _ _ _ w
    (generate_from_keys re prefixes outputMode outputPath draws 0)) as Hall.
  rewrite List.Forall_forall in Hall. exact (Hall _ Hin m eq_refl).
Qed.

(** The base64 text of a 32-byte seed has 44 characters, the last one
    being the padding. *)
Lemma base64_seed_length (seed : list Z) :
  List.length seed = 32%nat -> String.length (Base64.EncodeToString seed) = 44%nat.
Proof.
  intros H.
  do 32 (destruct seed as [| ? seed]; [discriminate H |]).
  destruct seed; [reflexivity | discriminate H].
Qed.

(** * Further properties *)

(** ** The address encoder *)

(** The characters of the address of a 32-byte key: the lowered base32
    digits of the 35-byte payload, which decode to the payload. *)
Lemma encodePublicKey_chars (publicKey : list Z) :
  List.length publicKey = 32%nat ->
  bytes_ok publicKey ->
  let payload := publicKey ++ onion_checksum publicKey ++ [0x03] in
  let cs := list_ascii_of_string (encodePublicKey publicKey) in
  List.length cs = 56%nat /\
  forallb in_lower_alphabet cs = true /\
  Base32.decode (List.map upper_ascii cs) = Some payload.
Proof.
  intros Hlen Hok payload cs.
  assert (Hplen : List.length payload = (5 * 7)%nat).
  { unfold payload. rewrite !length_app, Hlen. reflexivity. }
  assert (Hpok : bytes_ok payload).
  { unfold payload, bytes_ok. rewrite !Forall_app. repeat split.
    - exact Hok.
    - apply onion_checksum_ok.
    - constructor; [unfold byte_ok; lia | constructor]. }
  assert (Hcs : cs = List.map lower_ascii (Base32.encode payload)).
  { unfold cs, encodePublicKey. rewrite ToLower_list. unfold Base32.EncodeToString.
    rewrite list_ascii_roundtrip. reflexivity. }
  rewrite Hcs. exact (base32_whole_quanta 7 payload Hplen Hpok).
Qed.

(** X1.  Two different 32-byte public keys never get the same onion
    address. *)
Theorem encodePublicKey_injective (pk1 pk2 : list Z) :
  List.length pk1 = 32%nat -> bytes_ok pk1 ->
  List.length pk2 = 32%nat -> bytes_ok pk2 ->
  pk1 <> pk2 ->
  encodePublicKey pk1 <> encodePublicKey pk2.
Proof.
  intros Hl1 Ho1 Hl2 Ho2 Hne Heq. apply Hne.
  destruct (encodePublicKey_chars pk1 Hl1 Ho1) as (_ & _ & Hd1).
  destruct (encodePublicKey_chars pk2 Hl2 Ho2) as (_ & _ & Hd2).
  rewrite Heq, Hd2 in Hd1. injection Hd1 as Hp.
  apply app_inj_1 in Hp as [Hp _]; [congruence | lia].
Qed.

Lemma encodePublicKey_injective_witness :
  encodePublicKey (repeat 0 32) <> encodePublicKey (List.map Z.of_nat (seq 0 32)).
Proof.
  apply encodePublicKey_injective.
  - reflexivity.
  - apply bytes_ok_check. reflexivity.
  - reflexivity.
  - apply bytes_ok_check. reflexivity.
  - intros H. apply (f_equal (fun l => nth 1 l 0)) in H. discriminate H.
Defined.

(** X3.  A prefix that the address of a 32-byte key starts with has at
    most 56 characters, all of them in a-z, 2-7: a prefix with any
    other character (an upper-case letter, 0, 1, 8, 9) matches no
    address. *)
Theorem matching_prefix_alphabet (publicKey : list Z) (prefix : string) :
  List.length publicKey = 32%nat ->
  bytes_ok publicKey ->
  HasPrefix (encodePublicKey publicKey) prefix = true ->
  (String.length prefix <= 56)%nat /\
  forallb in_lower_alphabet (list_ascii_of_string prefix) = true.
Proof.
  intros Hlen Hok Hp.
  destruct (encodePublicKey_chars publicKey Hlen Hok) as (Hl & Hlow & _).
  apply HasPrefix_extends in Hp as [t Ht]. rewrite Ht in Hl, Hlow.
  assert (Happ : forall a b, list_ascii_of_string (a +:+ b)
                             = list_ascii_of_string a ++ list_ascii_of_string b).
  { intros a b. induction a as [| c a IH]; simpl; [reflexivity | rewrite IH; reflexivity]. }
  rewrite Happ in Hl, Hlow. rewrite length_app in Hl. rewrite forallb_app in Hlow.
  apply andb_true_iff in Hlow as [Hlow _].
  split; [rewrite string_length_list; lia | exact Hlow].
Qed.

Lemma matching_prefix_alphabet_witness :
  (String.length "aaaqeay" <= 56)%nat /\
  forallb in_lower_alphabet (list_ascii_of_string "aaaqeay") = true.
Proof.
  apply (matching_prefix_alphabet (List.map Z.of_nat (seq 0 32))).
  - reflexivity.
  - apply bytes_ok_check. reflexivity.
  - vm_compute. reflexivity.
Defined.

Lemma base32_encode_last (n : nat) :
  forall l : list Z,
    List.length l = (5 * S n)%nat ->
    exists a b c d e,
      last l = Some e /\
      last (Base32.encode l)
      = Some (Base32.encode_digit (digit 5 (be_value [a; b; c; d; e]) 0)).
Proof.
  induction n as [| n IH]; intros l Hlen;
    destruct l as [| a [| b [| c [| d [| e l']]]]]; try (simpl in Hlen; lia).
  - destruct l'; [| simpl in Hlen; lia]. exists a, b, c, d, e. split; reflexivity.
  - destruct (IH l') as (a' & b' & c' & d' & e' & Hl & He); [simpl in Hlen; lia |].
    exists a', b', c', d', e'.
    apply last_Some in Hl as (pre & Hl). apply last_Some in He as (pre' & He).
    change (Base32.encode (a :: b :: c :: d :: e :: l'))
      with (Base32.quantum a b c d e ++ Base32.encode l').
    rewrite He, Hl. split.
    + change (a :: b :: c :: d :: e :: pre ++ [e']) with ([a; b; c; d; e] ++ pre ++ [e']).
      rewrite app_assoc. apply last_snoc.
    + rewrite app_assoc. apply last_snoc.
Qed.

Lemma version_digit (a b c d : Z) : digit 5 (be_value [a; b; c; d; 0x03]) 0 = 3.
Proof.
  unfold digit, be_value. cbn [fold_left]. change (5 * 0) with 0.
  rewrite Z.shiftr_0_r. change (Z.ones 5) with 31.
  rewrite Z.land_lor_distr_l, land_shiftl_small by lia. reflexivity.
Qed.

Lemma string_of_list_ascii_snoc (l : list ascii) (c : ascii) :
  string_of_list_ascii (l ++ [c]) = string_of_list_ascii l +:+ String c "".
Proof. induction l as [| x l IH]; simpl; [reflexivity | rewrite IH; reflexivity]. Qed.

Lemma ToLower_app (s t : string) : ToLower (s +:+ t) = ToLower s +:+ ToLower t.
Proof. induction s as [| c s IH]; simpl; [reflexivity | rewrite IH; reflexivity]. Qed.

(** X2.  The address of a 32-byte key always ends in "d" (the low five
    bits of the version byte 0x03), after 55 other characters. *)
Theorem encodePublicKey_ends_with_d (publicKey : list Z) :
  List.length publicKey = 32%nat ->
  exists s, encodePublicKey publicKey = s +:+ "d" /\ String.length s = 55%nat.
Proof.
  intros Hlen. unfold encodePublicKey.
  set (checksum := firstn 2 (SHA3.Sum256 _)).
  set (payload := publicKey ++ checksum ++ [0x03]).
  assert (Hplen : List.length payload = (5 * 7)%nat).
  { unfold payload. rewrite !length_app, Hlen. reflexivity. }
  destruct (base32_encode_last 6 payload Hplen) as (a & b & c & d & e & Hl & He).
  assert (e = 3) as ->.
  { unfold payload in Hl. rewrite app_assoc, last_snoc in Hl. congruence. }
  rewrite version_digit in He. apply last_Some in He as (pre & He).
  unfold Base32.EncodeToString. rewrite He, string_of_list_ascii_snoc, ToLower_app.
  eexists. split; [reflexivity |].
  assert (Hn : List.length (Base32.encode payload) = 56%nat).
  { clear - Hplen.
    do 35 (destruct payload as [| ? payload]; [discriminate Hplen |]).
    destruct payload; [reflexivity | discriminate Hplen]. }
  rewrite He, length_app in Hn. cbn [List.length] in Hn.
  rewrite string_length_list, ToLower_list, length_map, list_ascii_roundtrip. lia.
Qed.

Lemma encodePublicKey_ends_with_d_witness :
  exists s, encodePublicKey (repeat 0 32) = s +:+ "d" /\ String.length s = 55%nat.
Proof. apply encodePublicKey_ends_with_d. reflexivity. Defined.

(** ** The secret-key expander *)

Lemma be_value_snoc (l : list Z) (b : Z) :
  byte_ok b -> be_value (l ++ [b]) = be_value l * 256 + b.
Proof.
  intros Hb. unfold be_value. rewrite fold_left_app. cbn [fold_left].
  apply (lor_shiftl_add _ b 8); [lia | exact Hb].
Qed.

Lemma be_value_range (l : list Z) :
  bytes_ok l -> 0 <= be_value l < 256 ^ Z.of_nat (List.length l).
Proof.
  induction l as [| b l IH] using rev_ind; intros Hok.
  - cbn. lia.
  - apply Forall_app in Hok as [Hl Hb]. apply Forall_cons in Hb as [Hb _].
    rewrite be_value_snoc by exact Hb. specialize (IH Hl).
    rewrite length_app. cbn [List.length].
    replace (Z.of_nat (List.length l + 1)) with (Z.of_nat (List.length l) + 1) by lia.
    rewrite Z.pow_add_r by lia. unfold byte_ok in Hb. nia.
Qed.

Lemma le_value_cons (b : Z) (l : list Z) :
  byte_ok b -> le_value (b :: l) = le_value l * 256 + b.
Proof. intros Hb. unfold le_value. cbn [rev]. apply be_value_snoc, Hb. Qed.

Lemma le_value_snoc (l : list Z) (b : Z) :
  bytes_ok l -> byte_ok b ->
  le_value (l ++ [b]) = b * 256 ^ Z.of_nat (List.length l) + le_value l.
Proof.
  induction l as [| x l IH]; intros Hok Hb.
  - cbn. unfold byte_ok in Hb. rewrite lor_shiftl_add; lia.
  - apply Forall_cons in Hok as [Hx Hl]. cbn [app].
    rewrite !le_value_cons by exact Hx. rewrite (IH Hl Hb).
    cbn [List.length]. rewrite Nat2Z.inj_succ, Z.pow_succ_r by lia. lia.
Qed.

Lemma le_value_range (l : list Z) :
  bytes_ok l -> 0 <= le_value l < 256 ^ Z.of_nat (List.length l).
Proof.
  intros Hok. unfold le_value. rewrite <- length_rev.
  apply be_value_range. apply Forall_rev, Hok.
Qed.

Lemma clamp_low (h : Z) : byte_ok h -> byte_ok (Z.land h 248) /\ Z.land h 248 mod 8 = 0.
Proof.
  intros Hh.
  pose (P := fun h => ((0 <=? Z.land h 248) && (Z.land h 248 <? 256)
                       && (Z.land h 248 mod 8 =? 0))%bool).
  assert (HP : P h = true) by (apply (forallb_below 256 P); [vm_compute; reflexivity | exact Hh]).
  unfold P, byte_ok in *. lia.
Qed.

Lemma clamp_high (h : Z) : byte_ok h -> 64 <= Z.lor (Z.land h 127) 64 < 128.
Proof.
  intros Hh.
  pose (P := fun h => ((64 <=? Z.lor (Z.land h 127) 64)
                       && (Z.lor (Z.land h 127) 64 <? 128))%bool).
  assert (HP : P h = true) by (apply (forallb_below 256 P); [vm_compute; reflexivity | exact Hh]).
  unfold P in *. lia.
Qed.

(** X4.  The first 32 bytes of the expanded key, read as a
    little-endian number, are a clamped ed25519 scalar: a multiple of 8
    that is at least 2^254 and below 2^255; and all 64 bytes are bytes. *)
Theorem expandSecretKey_scalar (secretKey : list Z) :
  let a := le_value (firstn 32 (expandSecretKey secretKey)) in
  a mod 8 = 0 /\ 2 ^ 254 <= a < 2 ^ 255 /\ bytes_ok (expandSecretKey secretKey).
Proof.
  unfold expandSecretKey.
  set (h := SHA512.Sum512 (firstn 32 secretKey)).
  assert (Hlen : List.length h = 64%nat) by apply Sum512_length.
  assert (Hok : bytes_ok h) by apply Sum512_bytes_ok.
  clearbody h. cbv zeta.
  destruct h as [| h0 h]; [discriminate Hlen |].
  apply Forall_cons in Hok as [H0 Hok].
  assert (Hsplit : h = firstn 30 h ++ nth 30 h 0 :: skipn 31 h).
  { rewrite <- (firstn_skipn 30 h) at 1. f_equal.
    do 30 (destruct h as [| ? h]; [discriminate Hlen |]).
    destruct h; [discriminate Hlen | reflexivity]. }
  set (mid := firstn 30 h) in *. set (h31 := nth 30 h 0) in *. set (rest := skipn 31 h) in *.
  assert (Hmid : List.length mid = 30%nat).
  { unfold mid. rewrite length_take. cbn [List.length] in Hlen. lia. }
  rewrite Hsplit in Hok. apply Forall_app in Hok as [Hmok Hok].
  apply Forall_cons in Hok as [H31 Hrok].
  rewrite Hsplit. clearbody mid h31 rest. clear Hsplit Hlen h.
  change (alter (fun b => Z.land b 248) 0%nat (h0 :: mid ++ h31 :: rest))
    with (Z.land h0 248 :: mid ++ h31 :: rest).
  assert (Ha : forall f (x y : Z), alter f 31%nat (x :: mid ++ y :: rest)
                                   = x :: mid ++ f y :: rest).
  { intros f x y. cbn [alter list_alter]. f_equal.
    change 30%nat with (30 + 0)%nat. rewrite <- Hmid at 1.
    rewrite (alter_app_r f mid (y :: rest) 0). reflexivity. }
  rewrite !Ha.
  destruct (clamp_low h0 H0) as [Hb0 Hm0]. pose proof (clamp_high h31 H31) as Hb31.
  set (b0 := Z.land h0 248) in *. set (b31 := Z.lor (Z.land h31 127) 64) in *.
  assert (Hfirst : firstn 32 (b0 :: mid ++ b31 :: rest) = b0 :: mid ++ [b31]).
  { cbn [firstn]. f_equal. change 31%nat with (30 + 1)%nat. rewrite <- Hmid at 1.
    rewrite take_app_add. reflexivity. }
  rewrite Hfirst.
  assert (Hb31ok : byte_ok b31) by (unfold byte_ok; lia).
  rewrite le_value_cons, le_value_snoc by assumption.
  pose proof (le_value_range mid Hmok) as Hr. rewrite Hmid in Hr |- *.
  change (Z.of_nat 30) with 30 in *.
  split; [| split].
  - rewrite Z.add_comm, Z.mul_comm.
    replace (b0 + 256 * (b31 * 256 ^ 30 + le_value mid))
      with (b0 + (32 * (b31 * 256 ^ 30 + le_value mid)) * 8) by lia.
    rewrite Z.mod_add by lia. exact Hm0.
  - unfold byte_ok in Hb0.
    change (2 ^ 254) with (64 * 256 ^ 30 * 256). change (2 ^ 255) with (128 * 256 ^ 30 * 256).
    nia.
  - unfold bytes_ok. constructor; [exact Hb0 |]. apply Forall_app. split; [exact Hmok |].
    constructor; assumption.
Qed.

(** ** The Tor writer: what it leaves alone, and what a failure leaves *)

(** X6.  [saveTorFormat] changes no file but its three: whatever
    happens, every other path holds what it held. *)
Theorem saveTorFormat_frame (onionAddress : string) (publicKey secretKey : list Z)
    (w : World) (path : string) :
  path <> onionAddress +:+ "/hs_ed25519_secret_key" ->
  path <> onionAddress +:+ "/hs_ed25519_public_key" ->
  path <> onionAddress +:+ "/hostname" ->
  files (world_of (saveTorFormat onionAddress publicKey secretKey w)) !! path
  = files w !! path.
Proof.
  intros H1 H2 H3. destruct w as [fs ds fl tr].
  destruct fl as [| f0 [| f1 [| f2 [| f3 fl]]]];
    repeat match goal with f : bool |- _ => destruct f end;
    run; rewrite ?lookup_insert_ne by congruence; reflexivity.
Qed.

Lemma saveTorFormat_frame_witness :
  files (world_of (saveTorFormat "abc" [1] [2]
                     {| files := {[ "abc/other" := [7] ]}; dirs := ∅;
                        faults := []; trace := [] |})) !! "abc/other"
  = Some [7].
Proof.
  rewrite saveTorFormat_frame by discriminate.
  cbn [files]. apply lookup_singleton_eq.
Defined.



(** ** The Bitcoin writer: failures and what it leaves alone *)

Lemma write_keys_outcome (outputFile : string) (ms : list PrefixMatch) :
  forall (buf : list Z) (w : World),
    if existsb (fun b : bool => b) (firstn (List.length ms) (faults w))
    then exists w', write_keys outputFile ms buf w = Exited 1 w' /\ files w' = files w
    else exists buf' w', write_keys outputFile ms buf w = Done buf' w' /\
                         files w' = files w /\
                         faults w' = skipn (List.length ms) (faults w).
Proof.
  induction ms as [| m ms IH]; intros buf w.
  - cbn. exists buf, w. repeat split. 
  - destruct w as [fs ds fl tr]. cbn [write_keys List.length faults].
    destruct fl as [| [|] fl]; cbn [firstn existsb orb skipn].
    + specialize (IH (buf ++ bytes_of_string
                          ("ED25519-V3:" +:+ PrivateKey m +:+ String "010" ""))
                     {| files := fs; dirs := ds; faults := [];
                        trace := (tr ++ [EvWriteString outputFile
                           ("ED25519-V3:" +:+ PrivateKey m +:+ String "010" "") true])
                                 ++ [EvSummary m] |}).
      cbn [faults files] in IH. rewrite take_nil in *. rewrite drop_nil in IH. cbn [existsb] in *.
      run. exact IH.
    + run. eexists. split; reflexivity.
    + specialize (IH (buf ++ bytes_of_string
                          ("ED25519-V3:" +:+ PrivateKey m +:+ String "010" ""))
                     {| files := fs; dirs := ds; faults := fl;
                        trace := (tr ++ [EvWriteString outputFile
                           ("ED25519-V3:" +:+ PrivateKey m +:+ String "010" "") true])
                                 ++ [EvSummary m] |}).
      cbn [faults files] in IH. run. exact IH.
Qed.

Lemma existsb_take_succ (n : nat) (l : list bool) :
  existsb (fun b : bool => b) (firstn (n + 1) l)
  = existsb (fun b : bool => b) (firstn n l) || hd false (skipn n l).
Proof.
  revert l. induction n as [| n IH]; intros [| b l]; cbn; try reflexivity.
  - destruct b; reflexivity.
  - rewrite IH. destruct b; reflexivity.
Qed.

Lemma tl_skipn {A} (n : nat) (l : list A) : tl (skipn n l) = skipn (n + 1) l.
Proof.
  revert l. induction n as [| n IH]; intros [| x l]; cbn; try reflexivity. apply IH.
Qed.

(** How [saveBitcoinFormatMulti] ends, from the results of its
    [length ms + 2] file operations (open, one write per match, flush). *)
Lemma saveBitcoinFormatMulti_run (ms : list PrefixMatch) (outputPath : string) (w : World) :
  let outputFile :=
    if decide (outputPath = "") then "onion_v3_private_key" else outputPath in
  if existsb (fun b : bool => b) (firstn (List.length ms + 2) (faults w))
  then exists w',
      saveBitcoinFormatMulti ms outputPath w = Exited 1 w' /\
      (forall path, path <> outputFile -> files w' !! path = files w !! path) /\
      (hd false (faults w) = true -> files w' = files w)
  else exists w',
      saveBitcoinFormatMulti ms outputPath w = Done tt w' /\
      files w' = <[outputFile := key_file (List.map PrivateKey ms)]> (files w) /\
      faults w' = skipn (List.length ms + 2) (faults w).
Proof.
  intros outputFile.
  destruct w as [fs ds fl tr]. cbn [faults files].
  replace (List.length ms + 2)%nat with (S (List.length ms + 1)) by lia.
  pose (w0 fl0 := {| files := <[outputFile := []]> fs; dirs := ds; faults := fl0;
                     trace := (tr ++ [EvBatchWrite ms outputPath])
                              ++ [EvOpenFile outputFile true] |}).
  assert (Hopen : forall fl0,
    saveBitcoinFormatMulti ms outputPath
      {| files := fs; dirs := ds; faults := fl0; trace := tr |}
    = if hd false fl0
      then Exited 1 {| files := fs; dirs := ds; faults := tl fl0;
                       trace := ((tr ++ [EvBatchWrite ms outputPath])
                                 ++ [EvOpenFile outputFile false])
                                ++ [EvPrint ("Error opening output file " +:+ outputFile)] |}
      else (buf <- write_keys outputFile ms [] ;;
            err <- writer_Flush outputFile buf ;;
            match err with
            | Some _ => fmt_Print ("Error flushing data to file " +:+ outputFile) ;;
                        os_Exit 1
            | None => fmt_Print ("Bitcoin format keys saved to " +:+ outputFile)
            end) (w0 (tl fl0))).
  { intros fl0. unfold saveBitcoinFormatMulti. fold outputFile.
    destruct fl0 as [| [|] fl0]; reflexivity. }
  rewrite Hopen. clear Hopen.
  assert (Hflush : forall buf w1,
    files w1 = <[outputFile := []]> fs ->
    let m := (err <- writer_Flush outputFile buf ;;
              match err with
              | Some _ => fmt_Print ("Error flushing data to file " +:+ outputFile) ;;
                          os_Exit 1
              | None => fmt_Print ("Bitcoin format keys saved to " +:+ outputFile)
              end) in
    if hd false (faults w1)
    then exists w', m w1 = Exited 1 w' /\ files w' = files w1
    else exists w', m w1 = Done tt w' /\ files w' = <[outputFile := buf]> fs /\
                    faults w' = tl (faults w1)).
  { intros buf [fs1 ds1 fl1 tr1] Hf m. cbn [files faults] in *. subst fs1.
    destruct fl1 as [| [|] fl1]; cbn [hd]; eexists; (split; [reflexivity |]); cbn [files faults].
    - rewrite lookup_insert_eq. cbn [default app]. split; [apply insert_insert_eq | reflexivity].
    - reflexivity.
    - rewrite lookup_insert_eq. cbn [default app]. split; [apply insert_insert_eq | reflexivity]. }
  assert (Hframe : forall w', files w' = <[outputFile := []]> fs ->
                     forall path, path <> outputFile -> files w' !! path = fs !! path).
  { intros w' -> path Hp. apply lookup_insert_ne. congruence. }
  destruct fl as [| f0 fl]; [| destruct f0]; cbn [firstn existsb orb skipn hd tl].
  - (* no result left: every operation succeeds *)
    rewrite ?take_nil. cbn [existsb].
    pose proof (write_keys_outcome outputFile ms [] (w0 [])) as Hw.
    cbn [faults w0] in Hw. rewrite take_nil, drop_nil in Hw. cbn [existsb] in Hw.
    destruct Hw as (buf & w1 & Hrun & Hf & Hfl).
    unfold bind at 1. rewrite Hrun.
    apply write_keys_done in Hrun as [-> _]. cbn [files w0] in Hf.
    pose proof (Hflush (key_file (List.map PrivateKey ms)) w1 Hf) as Hfin.
    cbv zeta in Hfin. rewrite Hfl in Hfin. cbn [hd tl] in Hfin.
    destruct Hfin as (w' & Hfin & Hf' & Hfl'). exists w'. cbn [app].
    split; [exact Hfin | split; assumption].
  - (* the open fails *)
    eexists. split; [reflexivity |]. cbn [files]. split; auto.
  - (* the open succeeds *)
    rewrite existsb_take_succ.
    pose proof (write_keys_outcome outputFile ms [] (w0 fl)) as Hw.
    cbn [faults files w0] in Hw.
    destruct (existsb (fun b : bool => b) (firstn (List.length ms) fl)); cbn [orb].
    + destruct Hw as (w1 & Hrun & Hf). exists w1. unfold bind at 1. rewrite Hrun.
      split; [reflexivity |]. split; [| discriminate]. apply Hframe, Hf.
    + destruct Hw as (buf & w1 & Hrun & Hf & Hfl).
      destruct (write_keys_done _ _ _ _ _ _ Hrun) as [-> _].
      pose proof (Hflush (key_file (List.map PrivateKey ms)) w1 Hf) as Hfin.
      cbv zeta in Hfin. rewrite Hfl in Hfin. cbn [app] in Hrun.
      destruct (hd false (skipn (List.length ms) fl)) eqn:Hd.
      * destruct Hfin as (w' & Hfin & Hf'). exists w'.
        unfold bind at 1. rewrite Hrun.
        split; [exact Hfin |]. split; [| discriminate].
        apply Hframe. rewrite Hf'. exact Hf.
      * destruct Hfin as (w' & Hfin & Hf' & Hfl'). exists w'.
        unfold bind at 1. rewrite Hrun.
        split; [exact Hfin |]. split; [exact Hf' |].
        rewrite Hfl'. apply tl_skipn.
Qed.

(** X8.  If the open, one of the writes or the flush fails,
    [saveBitcoinFormatMulti] ends the process with status 1 (it never
    panics); no file but the output file is changed, and when it is the
    open that fails no file at all. *)
Theorem saveBitcoinFormatMulti_failure (ms : list PrefixMatch) (outputPath : string)
    (w : World) :
  (exists i, (i < List.length ms + 2)%nat /\ nth i (faults w) false = true) ->
  exists w',
    saveBitcoinFormatMulti ms outputPath w = Exited 1 w' /\
    (forall path,
        path <> (if decide (outputPath = "") then "onion_v3_private_key" else outputPath) ->
        files w' !! path = files w !! path) /\
    (hd false (faults w) = true -> files w' = files w).
Proof.
  intros (i & Hi & Hf).
  pose proof (saveBitcoinFormatMulti_run ms outputPath w) as Hrun. cbv zeta in Hrun.
  assert (He : existsb (fun b : bool => b) (firstn (List.length ms + 2) (faults w)) = true).
  { apply existsb_exists. exists true. split; [| reflexivity].
    rewrite <- Hf. rewrite <- (firstn_skipn (List.length ms + 2) (faults w)) at 1.
    assert (Hlt : (i < List.length (firstn (List.length ms + 2) (faults w)))%nat).
    { rewrite length_take. apply Nat.min_glb_lt; [exact Hi |].
      destruct (Nat.lt_ge_cases i (List.length (faults w))) as [H | H]; [exact H |].
      rewrite nth_overflow in Hf by exact H. discriminate Hf. }
    rewrite app_nth1 by exact Hlt. apply nth_In. exact Hlt. }
  rewrite He in Hrun. exact Hrun.
Qed.

Lemma saveBitcoinFormatMulti_failure_witness :
  let m := match_record "a" "abc" [] 1 1 in
  let w := {| files := {[ "keys" := [1; 2; 3] ]}; dirs := ∅;
              faults := [true]; trace := [] |} in
  exists w', saveBitcoinFormatMulti [m] "keys" w = Exited 1 w' /\
             files w' !! "keys" = Some [1; 2; 3].
Proof.
  intros m w.
  destruct (saveBitcoinFormatMulti_failure [m] "keys" w) as (w' & Hrun & _ & Hf).
  - exists 0%nat. split; [cbn; lia | reflexivity].
  - exists w'. split; [exact Hrun |]. rewrite Hf by reflexivity.
    cbn [files w]. apply lookup_singleton_eq.
Defined.

(** X9.  [saveBitcoinFormatMulti] changes no file but the output
    file, however it ends. *)
Theorem saveBitcoinFormatMulti_frame (ms : list PrefixMatch) (outputPath : string)
    (w : World) (path : string) :
  path <> (if decide (outputPath = "") then "onion_v3_private_key" else outputPath) ->
  files (world_of (saveBitcoinFormatMulti ms outputPath w)) !! path = files w !! path.
Proof.
  intros Hp.
  pose proof (saveBitcoinFormatMulti_run ms outputPath w) as Hrun. cbv zeta in Hrun.
  destruct (existsb _ _).
  - destruct Hrun as (w' & -> & Hfr & _). cbn [world_of]. apply Hfr, Hp.
  - destruct Hrun as (w' & -> & Hf & _). cbn [world_of]. rewrite Hf.
    apply lookup_insert_ne. congruence.
Qed.

Lemma saveBitcoinFormatMulti_frame_witness :
  let m := match_record "a" "abc" [] 1 1 in
  let w := {| files := {[ "other" := [9] ]}; dirs := ∅; faults := []; trace := [] |} in
  files (world_of (saveBitcoinFormatMulti [m] "" w)) !! "other" = Some [9].
Proof.
  intros m w. rewrite saveBitcoinFormatMulti_frame by discriminate.
  cbn [files w]. apply lookup_singleton_eq.
Defined.

(** ** The worker: what it sends, and when it stops *)

Lemma new_events_bind {A B} (P P' : Event -> Prop) (Q : A -> Prop) (Q' : B -> Prop)
    (m : M A) (k : A -> M B) (w : World) :
  emits P Q m -> (forall a, emits P' Q' (k a)) ->
  new_events (bind m k) w
  = new_events m w ++ match m w with
                      | Done a w1 => new_events (k a) w1
                      | _ => []
                      end.
Proof.
  intros Hm Hk. destruct (Hm w) as (e1 & Ht1 & _ & _).
  rewrite (new_events_intro m w e1 Ht1).
  apply new_events_intro. unfold bind.
  destruct (m w) as [a w1 | w1 | c w1]; cbn [world_of] in Ht1 |- *.
  - destruct (Hk a w1) as (e2 & Ht2 & _ & _).
    rewrite (new_events_intro (k a) w1 e2 Ht2), Ht2, Ht1, app_assoc. reflexivity.
  - rewrite app_nil_r. exact Ht1.
  - rewrite app_nil_r. exact Ht1.
Qed.

Lemma sent_app (e1 e2 : list Event) : sent (e1 ++ e2) = sent e1 ++ sent e2.
Proof. apply omap_app. Qed.

Lemma sent_Forall (R : PrefixMatch -> Prop) (evs : list Event) :
  Forall (fun e => forall m, e = EvSend m -> R m) evs -> Forall R (sent evs).
Proof.
  induction 1 as [| e evs He _ IH]; [constructor |].
  destruct e; cbn; try exact IH. constructor; [apply He; reflexivity | exact IH].
Qed.

Lemma sent_none (evs : list Event) : (forall m, ~ In (EvSend m) evs) -> sent evs = [].
Proof.
  induction evs as [| e evs IH]; intros Hn; [reflexivity |].
  destruct e as [s | m0 | p ok | p data ok | p ok | p s ok | p ok | m0 | ms p]; cbn;
    try (apply IH; intros x Hx; apply (Hn x); right; exact Hx).
  exfalso. apply (Hn m0). left. reflexivity.
Qed.

Lemma log_nil (w : World) : log w [] = w.
Proof. destruct w. unfold log. cbn. rewrite app_nil_r. reflexivity. Qed.

(** The prefix loop as a search for the first matching prefix. *)
Lemma scan_prefixes_find prefixes addr sk attempts elapsed (w : World) :
  scan_prefixes prefixes addr sk attempts elapsed w
  = Done tt (log w match List.find (HasPrefix addr) prefixes with
                   | Some p => [EvSend (match_record p addr sk attempts elapsed)]
                   | None => []
                   end).
Proof.
  induction prefixes as [| p ps IH]; cbn [scan_prefixes List.find].
  - rewrite log_nil. reflexivity.
  - destruct (HasPrefix addr p); [reflexivity | exact IH].
Qed.

Lemma new_events_log {A} (m : M A) (w : World) (a : A) (evs : list Event) :
  m w = Done a (log w evs) -> new_events m w = evs.
Proof. intros H. apply new_events_intro. rewrite H. reflexivity. Qed.

Lemma generate_body_keygen_error re prefixes outputMode outputPath attempts d (w : World) :
  draw_err d <> None ->
  generate_body re prefixes outputMode outputPath attempts d w = Panicked w.
Proof.
  intros H. unfold generate_body. destruct (draw_err d); [reflexivity | contradiction].
Qed.

Lemma generate_body_prefix_run re p ps outputMode outputPath attempts d (w : World) :
  draw_err d = None ->
  let addr := encodePublicKey (draw_publicKey d) in
  generate_body re (p :: ps) outputMode outputPath attempts d w
  = Done (uint64 (attempts + 1))
      (log w match List.find (HasPrefix addr) (p :: ps) with
             | Some q => [EvSend (match_record q addr (draw_secretKey d)
                                    (uint64 (attempts + 1)) (draw_elapsed d))]
             | None => []
             end).
Proof.
  intros Herr addr. unfold generate_body. rewrite Herr.
  cbn [List.length Nat.ltb Nat.leb checkErr]. unfold bind at 1. cbn [ret].
  unfold bind at 1. rewrite scan_prefixes_find. reflexivity.
Qed.

Lemma generate_body_one re prefixes outputMode outputPath attempts d (w : World) :
  (List.length
     (sent (new_events (generate_body re prefixes outputMode outputPath attempts d) w))
   <= 1)%nat.
Proof.
  destruct (draw_err d) as [msg |] eqn:Herr.
  { erewrite new_events_intro; [instantiate (1 := []); cbn; lia |].
    rewrite generate_body_keygen_error by congruence. cbn. rewrite app_nil_r. reflexivity. }
  destruct prefixes as [| p ps].
  - destruct d as [pk sk err el]. cbn [draw_err] in Herr. subst err.
    destruct re as [r |].
    2:{ rewrite generate_body_silent by (right; left; reflexivity). cbn. lia. }
    destruct (r (encodePublicKey pk)) eqn:Hr.
    2:{ rewrite generate_body_silent
          by (right; right; exists r; split; [reflexivity | exact Hr]). cbn. lia. }
    destruct (decide (outputMode = TorMode)) as [-> | Hmode].
    + destruct (generate_body_regex_tor r pk sk el outputPath attempts w Hr)
        as [(ok & ->) | Hnone].
      * cbn. lia.
      * cbv zeta in Hnone. rewrite (sent_none _ Hnone). cbn. lia.
    + rewrite generate_body_regex_other by assumption. cbn. lia.
  - erewrite new_events_log by (apply generate_body_prefix_run; exact Herr).
    destruct (List.find _ _); cbn; lia.
Qed.

Lemma generate_from_step re prefixes outputMode outputPath attempts d rest (w : World) :
  new_events (generate_from re prefixes outputMode outputPath attempts (d :: rest)) w
  = new_events (generate_body re prefixes outputMode outputPath attempts d) w
    ++ match generate_body re prefixes outputMode outputPath attempts d w with
       | Done a w1 =>
           new_events (generate_from re prefixes outputMode outputPath a rest) w1
       | _ => []
       end.
Proof.
  cbn [generate_from]. eapply new_events_bind.
  - apply generate_body_emits.
  - intros a. apply generate_from_keys.
Qed.

(** X10.  A worker sends at most one record per turn of its loop, also
    when several prefixes match the address: after any number of turns
    it has sent at most that many records. *)
Theorem generate_sends_at_most_one_per_turn re prefixes outputMode outputPath
    (draws : list Draw) (w : World) :
  (List.length (sent (new_events (generate re prefixes outputMode outputPath draws) w))
   <= List.length draws)%nat.
Proof.
  unfold generate. generalize 0 as attempts. revert w.
  induction draws as [| d rest IH]; intros w attempts.
  - erewrite new_events_intro; [instantiate (1 := []); cbn; lia |].
    cbn. rewrite app_nil_r. reflexivity.
  - rewrite generate_from_step, sent_app, length_app. cbn [List.length].
    pose proof (generate_body_one re prefixes outputMode outputPath attempts d w) as H1.
    destruct (generate_body re prefixes outputMode outputPath attempts d w)
      as [a w1 | w1 | c w1].
    + specialize (IH w1 a). lia.
    + cbn. lia.
    + cbn. lia.
Qed.

(** X13.  The attempt counts of the records a worker sends increase
    strictly, in the order they are sent (for runs of fewer than 2^64
    turns): no two records of one worker carry the same count. *)
Theorem generate_attempts_increase re prefixes outputMode outputPath
    (draws : list Draw) (w : World) :
  Z.of_nat (List.length draws) < 2 ^ 64 ->
  StronglySorted Z.lt
    (List.map Attempts
       (sent (new_events (generate re prefixes outputMode outputPath draws) w))).
Proof.
  unfold generate.
  assert (H : forall draws attempts w,
    0 <= attempts -> attempts + Z.of_nat (List.length draws) < 2 ^ 64 ->
    StronglySorted Z.lt
      (List.map Attempts
         (sent (new_events
                  (generate_from re prefixes outputMode outputPath attempts draws) w)))).
  { clear draws w. induction draws as [| d rest IH]; intros attempts w H0 Hlt.
    - erewrite new_events_intro; [instantiate (1 := []); constructor |].
      cbn. rewrite app_nil_r. reflexivity.
    - cbn [List.length] in Hlt.
      assert (Hu : uint64 (attempts + 1) = attempts + 1)
        by (unfold uint64; apply Z.mod_small; lia).
      rewrite generate_from_step, sent_app, List.map_app.
      pose proof (generate_body_one re prefixes outputMode outputPath attempts d w) as H1.
      pose proof (emits_new_events _ _ _ w
        (generate_body_emits re prefixes outputMode outputPath attempts d)) as Hb.
      apply sent_Forall in Hb.
      destruct (generate_body_emits re prefixes outputMode outputPath attempts d w)
        as (_ & _ & _ & Hres).
      set (first := sent (new_events
             (generate_body re prefixes outputMode outputPath attempts d) w)) in *.
      assert (Hrest : StronglySorted Z.lt
        (List.map Attempts
           (sent match generate_body re prefixes outputMode outputPath attempts d w with
                 | Done a w1 =>
                     new_events
                       (generate_from re prefixes outputMode outputPath a rest) w1
                 | _ => []
                 end)) /\
        Forall (fun n => attempts + 1 < n)
          (List.map Attempts
             (sent match generate_body re prefixes outputMode outputPath attempts d w with
                   | Done a w1 =>
                       new_events
                         (generate_from re prefixes outputMode outputPath a rest) w1
                   | _ => []
                   end))).
      { destruct (generate_body re prefixes outputMode outputPath attempts d w)
          as [a w1 | w1 | c w1]; [| split; constructor | split; constructor].
        rewrite (Hres a w1 eq_refl), Hu. split; [apply IH; lia |].
        apply Forall_map.
        pose proof (emits_new_events _ _ _ w1
          (generate_from_emits re prefixes outputMode outputPath rest (attempts + 1)
             ltac:(lia) ltac:(lia))) as Hr.
        apply sent_Forall in Hr. eapply Forall_impl; [exact Hr |].
        cbn beta. intros m (n & Hn & Ha & _). lia. }
      destruct Hrest as [Hs Hgt].
      destruct first as [| m [| m' first]]; cbn [List.length] in H1; [exact Hs | | lia].
      cbn [List.map app]. constructor; [exact Hs |].
      apply Forall_cons in Hb as [(Ha & _) _]. rewrite Ha, Hu. exact Hgt. }
  intros Hlt. apply H; lia.
Qed.

Lemma generate_attempts_increase_witness :
  let zero := {| draw_publicKey := repeat 0 32; draw_secretKey := repeat 0 64;
                 draw_err := None; draw_elapsed := 5 |} in
  let other := {| draw_publicKey := List.map Z.of_nat (seq 0 32);
                  draw_secretKey := repeat 1 64;
                  draw_err := None; draw_elapsed := 3 |} in
  List.map Attempts
    (sent (new_events (generate None ["b"; "aaa"] BitcoinMode "" [other; zero; other])
             empty_world)) = [1; 2; 3] /\
  StronglySorted Z.lt [1; 2; 3].
Proof.
  intros zero other.
  assert (He : List.map Attempts
    (sent (new_events (generate None ["b"; "aaa"] BitcoinMode "" [other; zero; other])
             empty_world)) = [1; 2; 3]) by (vm_compute; reflexivity).
  split; [exact He |]. rewrite <- He.
  apply generate_attempts_increase. cbn. lia.
Defined.

(** X11.  A worker stops at the first failure of
    [ed25519.GenerateKey]: the run panics in the state the turns before
    it have reached, and the draws after it play no part. *)
Theorem generate_stops_at_keygen_error re prefixes outputMode outputPath
    (before after : list Draw) (d : Draw) (w : World) :
  draw_err d <> None ->
  generate re prefixes outputMode outputPath (before ++ d :: after) w
  = match generate re prefixes outputMode outputPath before w with
    | Done _ w1 => Panicked w1
    | Panicked w1 => Panicked w1
    | Exited c w1 => Exited c w1
    end.
Proof.
  intros Herr. unfold generate. generalize 0 as attempts. revert w.
  induction before as [| x before IH]; intros w attempts.
  - cbn [app generate_from ret]. unfold bind.
    rewrite generate_body_keygen_error by exact Herr. reflexivity.
  - cbn [app generate_from]. unfold bind.
    destruct (generate_body re prefixes outputMode outputPath attempts x w)
      as [a w1 | w1 | c w1]; [apply IH | reflexivity | reflexivity].
Qed.

Lemma generate_stops_at_keygen_error_witness :
  let good := {| draw_publicKey := repeat 0 32; draw_secretKey := repeat 0 64;
                 draw_err := None; draw_elapsed := 5 |} in
  let bad := {| draw_publicKey := []; draw_secretKey := [];
                draw_err := Some "entropy"; draw_elapsed := 6 |} in
  exists w1,
    generate None ["aaa"] BitcoinMode "" [good; bad; good] empty_world = Panicked w1 /\
    List.length (sent (trace w1)) = 1%nat.
Proof.
  intros good bad.
  rewrite (generate_stops_at_keygen_error None ["aaa"] BitcoinMode "" [good] [good] bad)
    by discriminate.
  eexists. split; [vm_compute; reflexivity | reflexivity].
Defined.

Lemma generate_body_quiet re prefixes outputMode outputPath attempts d :
  outputMode <> TorMode ->
  emits (fun e => is_tor_write e = false) any
        (generate_body re prefixes outputMode outputPath attempts d).
Proof.
  intros Hmode. unfold generate_body.
  eapply emits_bind; [apply emits_checkErr | intros _ _].
  eapply emits_bind; [| intros _ _; apply (emits_ret _ any); exact I].
  destruct prefixes as [| p ps]; cbn [List.length Nat.ltb Nat.leb].
  - destruct re as [r |]; [| apply (emits_ret _ any); exact I].
    destruct (r _); [| apply (emits_ret _ any); exact I].
    eapply emits_bind; [apply emits_emit; reflexivity | intros _ _].
    eapply emits_bind; [| intros _ _; apply emits_emit; reflexivity].
    rewrite decide_False by exact Hmode. apply (emits_ret _ any). exact I.
  - apply emits_scan_prefixes. reflexivity.
Qed.

(** X12.  In an output mode other than "tor" a worker never creates a
    directory and never writes a file, with a prefix list or with a
    regular expression. *)
Theorem generate_writes_only_in_tor_mode re prefixes outputMode outputPath
    (draws : list Draw) (w : World) :
  outputMode <> TorMode ->
  Forall (fun e => is_tor_write e = false)
         (new_events (generate re prefixes outputMode outputPath draws) w).
Proof.
  intros Hmode. apply (emits_new_events _ any). unfold generate. generalize 0.
  induction draws as [| d rest IH]; intros attempts; cbn [generate_from].
  - apply (emits_ret _ any). exact I.
  - eapply emits_bind; [apply generate_body_quiet, Hmode | intros a _; apply IH].
Qed.

Lemma generate_writes_only_in_tor_mode_witness :
  let d := {| draw_publicKey := repeat 0 32; draw_secretKey := repeat 0 64;
              draw_err := None; draw_elapsed := 5 |} in
  Forall (fun e => is_tor_write e = false)
         (new_events (generate (Some (fun s => HasPrefix s "aa")) [] BitcoinMode "" [d; d])
            empty_world).
Proof. intros d. apply generate_writes_only_in_tor_mode. discriminate. Defined.

Lemma generate_body_matched re prefixes outputMode outputPath attempts d :
  emits (fun e => forall m, e = EvSend m -> matched re prefixes m) any
        (generate_body re prefixes outputMode outputPath attempts d).
Proof.
  unfold generate_body.
  eapply emits_bind; [apply emits_checkErr | intros _ _].
  eapply emits_bind; [| intros _ _; apply (emits_ret _ any); exact I].
  destruct prefixes as [| p ps]; cbn [List.length Nat.ltb Nat.leb].
  - destruct re as [r |]; [| apply (emits_ret _ any); exact I].
    destruct (r (encodePublicKey (draw_publicKey d))) eqn:Hr;
      [| apply (emits_ret _ any); exact I].
    eapply emits_bind; [apply emits_emit; intros m H; discriminate H | intros _ _].
    eapply emits_bind.
    + destruct (decide (outputMode = TorMode)).
      * apply emits_saveTorFormat; intros; discriminate.
      * apply (emits_ret _ any). exact I.
    + intros _ _. apply emits_emit. intros m H. injection H as <-.
      exists r. split; [reflexivity | exact Hr].
  - apply emits_scan_prefixes. intros q Hin Hq m H. injection H as <-.
    split; [exact Hin | exact Hq].
Qed.

(** X14.  Every record a worker sends is for an address that matches:
    with a prefix list, its [Prefix] is one of the prefixes and the
    address starts with it; without one, the regular expression accepts
    the address. *)
Theorem generate_sends_only_matches re prefixes outputMode outputPath
    (draws : list Draw) (w : World) (m : PrefixMatch) :
  In (EvSend m) (new_events (generate re prefixes outputMode outputPath draws) w) ->
  match prefixes with
  | [] => exists r, re = Some r /\ r (OnionAddr m) = true
  | _ :: _ => In (Prefix m) prefixes /\ HasPrefix (OnionAddr m) (Prefix m) = true
  end.
Proof.
  intros Hin.
  assert (He : emits (fun e => forall m, e = EvSend m -> matched re prefixes m) any
                 (generate re prefixes outputMode outputPath draws)).
  { clear Hin. unfold generate. generalize 0.
    induction draws as [| d rest IH]; intros attempts; cbn [generate_from].
    - apply (emits_ret _ any). exact I.
    - eapply emits_bind; [apply generate_body_matched | intros a _; apply IH]. }
  pose proof (emits_new_events _ _ _ w He) as Hall.
  rewrite List.Forall_forall in Hall. exact (Hall _ Hin m eq_refl).
Qed.

Lemma generate_sends_only_matches_witness :
  let d := {| draw_publicKey := repeat 0 32; draw_secretKey := repeat 0 64;
              draw_err := None; draw_elapsed := 5 |} in
  let m := match_record "aaa" (encodePublicKey (repeat 0 32)) (repeat 0 64) 1 5 in
  In "aaa" ["b"; "aaa"; "a"] /\ HasPrefix (OnionAddr m) "aaa" = true.
Proof.
  intros d m.
  apply (generate_sends_only_matches None ["b"; "aaa"; "a"] BitcoinMode "" [d] empty_world m).
  assert (He : new_events (generate None ["b"; "aaa"; "a"] BitcoinMode "" [d]) empty_world
               = [EvSend m]) by (vm_compute; reflexivity).
  rewrite He. left. reflexivity.
Defined.

(** ** The collector: below the target, and at the target *)

Lemma collect_below number outputMode outputPath (incoming : list PrefixMatch) :
  1 <= number < 2 ^ 31 ->
  forall (st : Collector) (w : World),
    collecting number st ->
    matchCount st + Z.of_nat (List.length incoming) < number ->
    collect number outputMode outputPath st incoming w
    = Done {| matches := matches st ++ incoming;
              matchCount := matchCount st + Z.of_nat (List.length incoming) |} w.
Proof.
  intros Hn. induction incoming as [| m rest IH]; intros st w [Hc Hlt] Hsum.
  - cbn. rewrite app_nil_r, Z.add_0_r. destruct st; reflexivity.
  - cbn [collect List.length] in *. unfold bind, collect_one.
    rewrite (int32_small number), (int32_small (matchCount st + 1)) by lia.
    destruct (Z.leb_spec number (matchCount st + 1)) as [Hle | Hgt]; [lia |].
    cbn [ret]. rewrite IH.
    + cbn [matches matchCount]. rewrite <- app_assoc. do 2 f_equal. lia.
    + split; cbn [matches matchCount]; [rewrite length_app; cbn [List.length]; lia | lia].
    + cbn [matches matchCount]. lia.
Qed.

Lemma collect_at number outputMode outputPath (incoming : list PrefixMatch) :
  1 <= number < 2 ^ 31 ->
  forall (st : Collector) (w : World),
    collecting number st ->
    number <= matchCount st + Z.of_nat (List.length incoming) ->
    collect number outputMode outputPath st incoming w
    = ((if decide (outputMode = BitcoinMode)
        then saveBitcoinFormatMulti
               (firstn (Z.to_nat number) (matches st ++ incoming)) outputPath
        else ret tt) ;; os_Exit 0) w.
Proof.
  intros Hn. induction incoming as [| m rest IH]; intros st w [Hc Hlt] Hsum.
  - cbn [List.length] in Hsum. lia.
  - cbn [collect List.length] in *. unfold bind at 1. unfold collect_one.
    rewrite (int32_small number), (int32_small (matchCount st + 1)) by lia.
    destruct (Z.leb_spec number (matchCount st + 1)) as [Hle | Hgt].
    + assert (Hfirst : firstn (Z.to_nat number) (matches st ++ m :: rest)
                       = matches st ++ [m]).
      { change (m :: rest) with ([m] ++ rest). rewrite app_assoc.
        apply take_app_length'. rewrite length_app. cbn [List.length]. lia. }
      rewrite Hfirst.
      destruct ((_ ;; os_Exit 0) w) as [a w1 | w1 | c w1] eqn:Hrun; try reflexivity.
      exfalso. revert Hrun. unfold bind.
      destruct (decide (outputMode = BitcoinMode));
        [destruct (saveBitcoinFormatMulti _ _ w) |]; discriminate.
    + cbn [ret]. rewrite IH.
      * cbn [matches]. rewrite <- app_assoc. reflexivity.
      * split; cbn [matches matchCount]; [rewrite length_app; cbn [List.length]; lia | lia].
      * cbn [matches matchCount]. lia.
Qed.

(** X17.  For a target below 2^31, while fewer matches than the target
    have arrived the collector neither exits nor writes: it holds all
    of them, in arrival order, and the world is as it was. *)
Theorem collector_below_target number outputMode outputPath
    (incoming : list PrefixMatch) (w : World) :
  1 <= number < 2 ^ 31 ->
  Z.of_nat (List.length incoming) < number ->
  collector number outputMode outputPath incoming w
  = Done {| matches := incoming; matchCount := Z.of_nat (List.length incoming) |} w.
Proof.
  intros Hn Hlt. unfold collector.
  rewrite (collect_below number outputMode outputPath incoming Hn collector_init w).
  - reflexivity.
  - split; cbn; lia.
  - cbn. lia.
Qed.

Lemma collector_below_target_witness :
  let m := match_record "a" "abc" [] 1 1 in
  collector 3 BitcoinMode "" [m; m] empty_world
  = Done {| matches := [m; m]; matchCount := 2 |} empty_world.
Proof.
  intros m. apply (collector_below_target 3 BitcoinMode "" [m; m] empty_world); cbn; lia.
Defined.

(** X16.  For a target below 2^31, once that many matches have arrived
    the collector does what the batch writer does on the first [number]
    of them (in Bitcoin mode; nothing in any other mode) and then exits
    with status 0: matches that arrive later play no part. *)
Theorem collector_at_target number outputMode outputPath
    (incoming : list PrefixMatch) (w : World) :
  1 <= number < 2 ^ 31 ->
  number <= Z.of_nat (List.length incoming) ->
  collector number outputMode outputPath incoming w
  = ((if decide (outputMode = BitcoinMode)
      then saveBitcoinFormatMulti (firstn (Z.to_nat number) incoming) outputPath
      else ret tt) ;; os_Exit 0) w.
Proof.
  intros Hn Hge. unfold collector.
  rewrite (collect_at number outputMode outputPath incoming Hn collector_init w).
  - reflexivity.
  - split; cbn; lia.
  - cbn. lia.
Qed.

Lemma collector_at_target_witness :
  let m := match_record "a" "abc" [] 1 1 in
  let m' := match_record "b" "bcd" [] 2 2 in
  collector 1 TorMode "" [m; m'] empty_world = Exited 0 empty_world.
Proof.
  intros m m'.
  rewrite (collector_at_target 1 TorMode "" [m; m'] empty_world) by (cbn; lia).
  reflexivity.
Defined.

(** X18.  End to end in Bitcoin mode, when no file operation fails: the
    process exits with status 0, the output file holds exactly the key
    lines of the first [number] matches, and no other file is changed. *)
Theorem collector_bitcoin_file number outputPath (incoming : list PrefixMatch) (w : World) :
  1 <= number < 2 ^ 31 ->
  number <= Z.of_nat (List.length incoming) ->
  faults w = [] ->
  exists w',
    collector number BitcoinMode outputPath incoming w = Exited 0 w' /\
    files w' !! (if decide (outputPath = "") then "onion_v3_private_key" else outputPath)
    = Some (key_file (List.map PrivateKey (firstn (Z.to_nat number) incoming))) /\
    forall path,
      path <> (if decide (outputPath = "") then "onion_v3_private_key" else outputPath) ->
      files w' !! path = files w !! path.
Proof.
  intros Hn Hge Hfl. unfold collector.
  rewrite (collect_at number BitcoinMode outputPath incoming Hn collector_init w)
    by (try split; cbn; lia).
  rewrite decide_True by reflexivity. cbn [matches collector_init app].
  pose proof (saveBitcoinFormatMulti_run (firstn (Z.to_nat number) incoming) outputPath w)
    as Hrun.
  cbv zeta in Hrun. rewrite Hfl, take_nil in Hrun. cbn [existsb] in Hrun.
  destruct Hrun as (w' & Hrun & Hf & _).
  exists w'. unfold bind. rewrite Hrun. split; [reflexivity |]. rewrite Hf.
  split; [apply lookup_insert_eq |].
  intros path Hp. apply lookup_insert_ne. congruence.
Qed.

Lemma collector_bitcoin_file_witness :
  let m := match_record "a" "abc" [1; 2; 3] 1 1 in
  let m' := match_record "b" "bcd" [4; 5; 6] 2 2 in
  exists w',
    collector 1 BitcoinMode "keys" [m; m'] empty_world = Exited 0 w' /\
    files w' !! "keys" = Some (bytes_of_string ("ED25519-V3:AQID" +:+ String "010" "")).
Proof.
  intros m m'.
  destruct (collector_bitcoin_file 1 "keys" [m; m'] empty_world)
    as (w' & Hrun & Hf & _); [lia | cbn; lia | reflexivity |].
  exists w'. split; [exact Hrun |]. cbn [decide] in Hf.
  change (files w' !! "keys" = Some (key_file (List.map PrivateKey [m]))) in Hf.
  rewrite Hf. vm_compute. reflexivity.
Defined.

Lemma collector_batch_exact_witness :
  let m := match_record "a" "abc" [1; 2; 3] 1 1 in
  hd_error (new_events (collector 2 BitcoinMode "keys" [m; m; m]) empty_world)
    = Some (EvBatchWrite [m; m] "keys") /\
  Z.of_nat (List.length [m; m]) = 2.
Proof.
  intros m.
  assert (He : hd_error (new_events (collector 2 BitcoinMode "keys" [m; m; m]) empty_world)
               = Some (EvBatchWrite [m; m] "keys")) by (vm_compute; reflexivity).
  split; [exact He |].
  apply (collector_batch_exact 2 BitcoinMode "keys" [m; m; m] empty_world ltac:(lia)
           [m; m] "keys").
  destruct (new_events (collector 2 BitcoinMode "keys" [m; m; m]) empty_world)
    as [| e evs]; [discriminate He |].
  injection He as ->. left. reflexivity.
Defined.

(** ** Reading the prefix file *)

Lemma TrimLeft_spec (n : nat) :
  forall s, (String.length s <= n)%nat ->
    (exists pre, s = pre +:+ TrimLeft s) /\
    (forall c r, TrimLeft s = String c r -> space1 c = false).
Proof.
  induction n as [| n IH]; intros s Hn.
  - destruct s; [| simpl in Hn; lia]. split; [exists ""; reflexivity | discriminate].
  - destruct s as [| c1 r1]; [split; [exists ""; reflexivity | discriminate] |].
    simpl in Hn. cbn [TrimLeft].
    destruct (space1 c1) eqn:H1.
    { destruct (IH r1 ltac:(lia)) as [[pre Hp] Hh]. split; [| exact Hh].
      exists (String c1 pre). rewrite Hp at 1. reflexivity. }
    assert (Hself : (exists pre, String c1 r1 = pre +:+ String c1 r1) /\
                    (forall c r, String c1 r1 = String c r -> space1 c = false)).
    { split; [exists ""; reflexivity |]. intros c r H. injection H as <- _. exact H1. }
    destruct r1 as [| c2 r2]; [exact Hself |]. simpl in Hn.
    destruct (space2 c1 c2).
    { destruct (IH r2 ltac:(lia)) as [[pre Hp] Hh]. split; [| exact Hh].
      exists (String c1 (String c2 pre)). rewrite Hp at 1. reflexivity. }
    destruct r2 as [| c3 r3]; [exact Hself |]. simpl in Hn.
    destruct (space3 c1 c2 c3); [| exact Hself].
    destruct (IH r3 ltac:(lia)) as [[pre Hp] Hh]. split; [| exact Hh].
    exists (String c1 (String c2 (String c3 pre))). rewrite Hp at 1. reflexivity.
Qed.

Lemma TrimLeft_rev_spec (n : nat) :
  forall s, (String.length s <= n)%nat ->
    (exists pre, s = pre +:+ TrimLeft_rev s) /\
    (forall c r, TrimLeft_rev s = String c r -> space1 c = false).
Proof.
  induction n as [| n IH]; intros s Hn.
  - destruct s; [| simpl in Hn; lia]. split; [exists ""; reflexivity | discriminate].
  - destruct s as [| c1 r1]; [split; [exists ""; reflexivity | discriminate] |].
    simpl in Hn. cbn [TrimLeft_rev].
    destruct (space1 c1) eqn:H1.
    { destruct (IH r1 ltac:(lia)) as [[pre Hp] Hh]. split; [| exact Hh].
      exists (String c1 pre). rewrite Hp at 1. reflexivity. }
    assert (Hself : (exists pre, String c1 r1 = pre +:+ String c1 r1) /\
                    (forall c r, String c1 r1 = String c r -> space1 c = false)).
    { split; [exists ""; reflexivity |]. intros c r H. injection H as <- _. exact H1. }
    destruct r1 as [| c2 r2]; [exact Hself |]. simpl in Hn.
    destruct (space2 c2 c1).
    { destruct (IH r2 ltac:(lia)) as [[pre Hp] Hh]. split; [| exact Hh].
      exists (String c1 (String c2 pre)). rewrite Hp at 1. reflexivity. }
    destruct r2 as [| c3 r3]; [exact Hself |]. simpl in Hn.
    destruct (space3 c3 c2 c1); [| exact Hself].
    destruct (IH r3 ltac:(lia)) as [[pre Hp] Hh]. split; [| exact Hh].
    exists (String c1 (String c2 (String c3 pre))). rewrite Hp at 1. reflexivity.
Qed.

Lemma list_ascii_app (a b : string) :
  list_ascii_of_string (a +:+ b) = list_ascii_of_string a ++ list_ascii_of_string b.
Proof. induction a as [| c a IH]; simpl; [reflexivity | rewrite IH; reflexivity]. Qed.

Lemma string_of_list_ascii_app (a b : list ascii) :
  string_of_list_ascii (a ++ b) = string_of_list_ascii a +:+ string_of_list_ascii b.
Proof. induction a as [| c a IH]; simpl; [reflexivity | rewrite IH; reflexivity]. Qed.

Lemma string_rev_app (a b : string) : string_rev (a +:+ b) = string_rev b +:+ string_rev a.
Proof.
  unfold string_rev. rewrite list_ascii_app, rev_app_distr. apply string_of_list_ascii_app.
Qed.

Lemma string_rev_involutive (s : string) : string_rev (string_rev s) = s.
Proof.
  unfold string_rev. rewrite list_ascii_roundtrip, rev_involutive.
  apply string_of_list_ascii_of_string.
Qed.

(** What is left of a text is a piece of it, without white space at its
    ends. *)
Lemma TrimSpace_spec (s : string) :
  (exists pre post, s = pre +:+ TrimSpace s +:+ post) /\
  (TrimSpace s <> "" -> trimmed (TrimSpace s)).
Proof.
  unfold TrimSpace, TrimRight.
  destruct (TrimLeft_spec _ s (le_n _)) as [[pre Hpre] Hhead].
  set (t := TrimLeft s) in *.
  destruct (TrimLeft_rev_spec _ (string_rev t) (le_n _)) as [[post Hpost] Hlast].
  set (u := TrimLeft_rev (string_rev t)) in *.
  assert (Ht : t = string_rev u +:+ string_rev post).
  { rewrite <- string_rev_app, <- Hpost. symmetry. apply string_rev_involutive. }
  split.
  - exists pre, (string_rev post). rewrite <- Ht. exact Hpre.
  - intros Hne. split; [exact Hne | split].
    + intros c Hc. destruct (string_rev u) as [| c' r'] eqn:Hu; [discriminate Hc |].
      injection Hc as ->. rewrite Ht in Hhead. exact (Hhead c _ eq_refl).
    + intros c Hc. unfold string_last, string_rev in Hc.
      rewrite list_ascii_roundtrip in Hc.
      destruct u as [| c' r']; [discriminate Hc |].
      cbn [list_ascii_of_string rev] in Hc. rewrite last_snoc in Hc. injection Hc as ->.
      exact (Hlast c _ eq_refl).
Qed.

Lemma collect_prefixes_filter (lines acc : list string) :
  collect_prefixes lines acc
  = acc ++ List.filter (fun p => negb (String.eqb p "")) (List.map TrimSpace lines).
Proof.
  revert acc. induction lines as [| l ls IH]; intros acc; cbn [collect_prefixes List.map List.filter].
  - rewrite app_nil_r. reflexivity.
  - destruct (String.eqb_spec (TrimSpace l) "") as [He | Hne].
    + rewrite decide_False by (intros H; contradiction). cbn [negb]. apply IH.
    + rewrite decide_True by exact Hne. cbn [negb]. rewrite IH, <- app_assoc. reflexivity.
Qed.

Lemma readPrefixFile_cases (filepath : string) (w : World) :
  exists res w',
    readPrefixFile filepath w = Done res w' /\
    files w' = files w /\ dirs w' = dirs w /\ trace w' = trace w /\
    (res = ([], Some "cannot open prefix file") \/
     res = ([], Some "error reading prefix file") \/
     res = ([], Some "no valid prefixes found in file") \/
     exists lines data,
       files w !! filepath = Some data /\
       scan_lines (string_of_bytes data) = Some lines /\
       collect_prefixes lines [] <> [] /\
       res = (collect_prefixes lines [], None)).
Proof.
  destruct w as [fs ds fl tr]. unfold readPrefixFile, os_Open, scanner_Scan_all.
  unfold bind, next_fault, ret. cbn [files dirs faults trace].
  destruct (fs !! filepath) as [data |] eqn:Hfile.
  - destruct (hd false fl).
    { do 2 eexists. split; [reflexivity |]. cbn [files dirs trace]. repeat split; auto 10. }
    cbn [files dirs faults trace].
    destruct (hd false (tl fl)).
    { do 2 eexists. split; [reflexivity |]. cbn [files dirs trace]. repeat split; auto 10. }
    destruct (scan_lines (string_of_bytes data)) as [lines |] eqn:Hscan.
    2:{ do 2 eexists. split; [reflexivity |]. cbn [files dirs trace]. repeat split; auto 10. }
    destruct (collect_prefixes lines []) as [| p ps] eqn:Hc; cbn [List.length Nat.eqb].
    + do 2 eexists. split; [reflexivity |]. cbn [files dirs trace]. repeat split; auto 10.
    + do 2 eexists. split; [reflexivity |]. cbn [files dirs trace]. repeat split.
      right. right. right. exists lines, data. rewrite Hc.
      split; [reflexivity | split; [exact Hscan | split; [discriminate | reflexivity]]].
  - destruct (hd false fl || negb (bool_decide (filepath ∈ ds))).
    { do 2 eexists. split; [reflexivity |]. cbn [files dirs trace]. repeat split; auto 10. }
    cbn [files dirs faults trace].
    destruct (hd false (tl fl)); do 2 eexists; (split; [reflexivity |]); cbn [files dirs trace]; repeat split; auto 10.
Qed.

(** X19. [readPrefixFile] never panics and never exits, and it changes
    no file and prints nothing.  It returns either a list of prefixes
    that is not empty, each prefix non-empty and neither starting nor
    ending with ASCII white space, together with a nil error, or no
    prefix together with one of its three errors. *)
Theorem readPrefixFile_result (filepath : string) (w : World) :
  exists prefixes err w',
    readPrefixFile filepath w = Done (prefixes, err) w' /\
    files w' = files w /\ trace w' = trace w /\
    match err with
    | None => prefixes <> [] /\ Forall trimmed prefixes
    | Some e =>
        prefixes = [] /\
        (e = "cannot open prefix file" \/ e = "error reading prefix file"
         \/ e = "no valid prefixes found in file")
    end.
Proof.
  destruct (readPrefixFile_cases filepath w) as (res & w' & Hrun & Hf & _ & Ht & Hres).
  destruct Hres as [-> | [-> | [-> | (lines & data & _ & _ & Hne & ->)]]].
  1-3: eexists [], (Some _), w'; (split; [exact Hrun |]); repeat split; auto.
  do 3 eexists. split; [exact Hrun |]. split; [exact Hf |]. split; [exact Ht |].
  split; [exact Hne |].
  rewrite collect_prefixes_filter. cbn [app].
  apply Forall_forall. intros p Hp. apply list_elem_of_In, filter_In in Hp as [Hin Hnz].
  apply in_map_iff in Hin as (l & <- & _).
  apply TrimSpace_spec. intros He. rewrite He in Hnz. discriminate Hnz.
Qed.

Lemma append_cons (c : ascii) (a b : string) : String c a +:+ b = String c (a +:+ b).
Proof. reflexivity. Qed.

Lemma string_of_bytes_of_string (s : string) : string_of_bytes (bytes_of_string s) = s.
Proof.
  unfold string_of_bytes, bytes_of_string. rewrite List.map_map.
  rewrite <- (string_of_list_ascii_of_string s) at 2. f_equal.
  rewrite <- (List.map_id (list_ascii_of_string s)) at 2.
  apply List.map_ext. intros c. unfold ascii_of_byte, byte_of_ascii.
  rewrite N2Z.id. apply ascii_N_embedding.
Qed.

Lemma plain_facts (c : ascii) :
  plain c = true ->
  Ascii.eqb c "010" = false /\ Ascii.eqb c "013" = false /\ space1 c = false /\
  (forall d, space2 c d = false) /\ (forall d e, space3 c d e = false).
Proof.
  intros Hp. unfold plain in Hp. cbv zeta in Hp.
  assert (Hn : 33 <= byte_of_ascii c <= 126).
  { apply andb_true_iff in Hp as [H1 H2]. apply Z.leb_le in H1, H2. lia. }
  repeat split.
  - destruct (Ascii.eqb_spec c "010") as [-> | _];
      [vm_compute in Hp; discriminate Hp | reflexivity].
  - destruct (Ascii.eqb_spec c "013") as [-> | _];
      [vm_compute in Hp; discriminate Hp | reflexivity].
  - unfold space1. cbv zeta. apply not_true_is_false. intros H.
    rewrite ?orb_true_iff, ?andb_true_iff, ?Z.eqb_eq, ?Z.leb_le in H. lia.
  - intros d. unfold space2. cbv zeta. apply not_true_is_false. intros H.
    rewrite ?orb_true_iff, ?andb_true_iff, ?Z.eqb_eq, ?Z.leb_le in H. lia.
  - intros d e. unfold space3. cbv zeta. apply not_true_is_false. intros H.
    rewrite ?orb_true_iff, ?andb_true_iff, ?Z.eqb_eq, ?Z.leb_le in H. lia.
Qed.

Lemma raw_lines_line (p rest : string) :
  chars_all plain p = true ->
  raw_lines (p +:+ String "010" rest) = p :: raw_lines rest.
Proof.
  induction p as [| c p IH]; intros Hp.
  - reflexivity.
  - unfold chars_all in *. cbn [list_ascii_of_string forallb] in Hp.
    apply andb_true_iff in Hp as [Hc Hp].
    rewrite append_cons. cbn [raw_lines].
    destruct (plain_facts c Hc) as (-> & _). rewrite (IH Hp). reflexivity.
Qed.

Lemma raw_lines_unlines (ps : list string) :
  Forall (fun p => chars_all plain p = true) ps -> raw_lines (unlines ps) = ps.
Proof.
  induction 1 as [| p ps Hp _ IH]; [reflexivity |].
  cbn [unlines fold_right]. rewrite raw_lines_line by exact Hp.
  f_equal. exact IH.
Qed.

Lemma dropCR_plain (p : string) : chars_all plain p = true -> dropCR p = p.
Proof.
  induction p as [| c p IH]; intros Hp; [reflexivity |].
  unfold chars_all in *. cbn [list_ascii_of_string forallb] in Hp.
  apply andb_true_iff in Hp as [Hc Hp]. cbn [dropCR].
  destruct p as [| c' p'].
  - destruct (plain_facts c Hc) as (_ & -> & _). reflexivity.
  - rewrite (IH Hp). reflexivity.
Qed.

Lemma TrimLeft_plain (p : string) :
  (forall c, string_head p = Some c -> plain c = true) -> TrimLeft p = p.
Proof.
  intros Hp. destruct p as [| c1 r1]; [reflexivity |].
  destruct (plain_facts c1 (Hp c1 eq_refl)) as (_ & _ & H1 & H2 & H3).
  cbn [TrimLeft]. rewrite H1. destruct r1 as [| c2 r2]; [reflexivity |].
  rewrite H2. destruct r2 as [| c3 r3]; [reflexivity |]. rewrite H3. reflexivity.
Qed.

Lemma TrimLeft_rev_plain (p : string) : chars_all plain p = true -> TrimLeft_rev p = p.
Proof.
  intros Hp. unfold chars_all in Hp.
  destruct p as [| c1 r1]; [reflexivity |].
  cbn [list_ascii_of_string forallb] in Hp. apply andb_true_iff in Hp as [Hc1 Hp].
  destruct (plain_facts c1 Hc1) as (_ & _ & H1 & _).
  cbn [TrimLeft_rev]. rewrite H1. destruct r1 as [| c2 r2]; [reflexivity |].
  cbn [list_ascii_of_string forallb] in Hp. apply andb_true_iff in Hp as [Hc2 Hp].
  destruct (plain_facts c2 Hc2) as (_ & _ & _ & H2 & _). rewrite H2.
  destruct r2 as [| c3 r3]; [reflexivity |].
  cbn [list_ascii_of_string forallb] in Hp. apply andb_true_iff in Hp as [Hc3 Hp].
  destruct (plain_facts c3 Hc3) as (_ & _ & _ & _ & H3). rewrite H3. reflexivity.
Qed.

Lemma TrimSpace_plain (p : string) : chars_all plain p = true -> TrimSpace p = p.
Proof.
  intros Hp. unfold TrimSpace, TrimRight.
  rewrite TrimLeft_plain.
  - rewrite TrimLeft_rev_plain; [apply string_rev_involutive |].
    unfold chars_all, string_rev in *. rewrite list_ascii_roundtrip.
    rewrite forallb_forall in *. intros c Hc. apply Hp. apply in_rev. exact Hc.
  - intros c Hc. destruct p as [| c' r]; [discriminate Hc |]. injection Hc as ->.
    unfold chars_all in Hp. cbn [list_ascii_of_string forallb] in Hp.
    apply andb_true_iff in Hp as [Hc _]. exact Hc.
Qed.

(** X21. Round trip: when the file holds non-empty prefixes of visible
    ASCII characters, one per line and each line ended by a line feed
    (lines shorter than the scanner's limit), and opening and reading it
    succeed, [readPrefixFile] returns exactly these prefixes, in the
    order of the file, with a nil error, and changes no file. *)
Theorem readPrefixFile_round_trip (filepath : string) (prefixes : list string) (w : World) :
  prefixes <> [] ->
  Forall (fun p => p <> "" /\ chars_all plain p = true
                   /\ Z.of_nat (String.length p) < MaxScanTokenSize) prefixes ->
  files w !! filepath = Some (bytes_of_string (unlines prefixes)) ->
  nth 0 (faults w) false = false ->
  nth 1 (faults w) false = false ->
  exists w', readPrefixFile filepath w = Done (prefixes, None) w' /\ files w' = files w.
Proof.
  intros Hne Hall Hfile Hf0 Hf1.
  assert (Hplain : Forall (fun p => chars_all plain p = true) prefixes).
  { eapply Forall_impl; [exact Hall |]. cbn beta. intros p (_ & Hp & _). exact Hp. }
  assert (Hscan : scan_lines (unlines prefixes) = Some prefixes).
  { unfold scan_lines. rewrite raw_lines_unlines by exact Hplain.
    replace (existsb _ prefixes) with false.
    - f_equal. rewrite <- (List.map_id prefixes) at 2. apply List.map_ext_in.
      intros p Hp. apply dropCR_plain.
      rewrite List.Forall_forall in Hplain. apply Hplain, Hp.
    - symmetry. apply not_true_is_false. intros He.
      apply existsb_exists in He as (p & Hp & Hlen).
      rewrite List.Forall_forall in Hall. destruct (Hall p Hp) as (_ & _ & Hlt). lia. }
  assert (Hcollect : collect_prefixes prefixes [] = prefixes).
  { rewrite collect_prefixes_filter. cbn [app]. clear - Hall.
    induction Hall as [| p ps (Hnz & Hp & _) _ IH]; [reflexivity |].
    cbn [List.map List.filter]. rewrite (TrimSpace_plain p Hp).
    destruct (String.eqb_spec p "") as [He | _]; [contradiction |].
    cbn [negb]. f_equal. exact IH. }
  destruct w as [fs ds fl tr]. cbn [files faults] in *.
  unfold readPrefixFile, os_Open, scanner_Scan_all.
  unfold bind, next_fault, ret. cbn [files dirs faults trace]. rewrite Hfile.
  replace (hd false fl) with false by (destruct fl; [reflexivity | exact (eq_sym Hf0)]).
  cbn [files dirs faults trace].
  replace (hd false (tl fl)) with false
    by (destruct fl as [| ? [| ? ?]]; try reflexivity; exact (eq_sym Hf1)).
  rewrite string_of_bytes_of_string, Hscan. cbv zeta. rewrite Hcollect.
  destruct prefixes as [| p ps]; [contradiction |]. cbn [List.length Nat.eqb].
  eexists. split; reflexivity.
Qed.

Lemma readPrefixFile_round_trip_witness :
  let content := "abc" +:+ String "010" ("test2" +:+ String "010" "") in
  let w := {| files := {[ "prefixes.txt" := bytes_of_string content ]}; dirs := ∅;
              faults := []; trace := [] |} in
  exists w', readPrefixFile "prefixes.txt" w = Done (["abc"; "test2"], None) w' /\
             files w' = files w.
Proof.
  intros content w.
  apply (readPrefixFile_round_trip "prefixes.txt" ["abc"; "test2"] w).
  - discriminate.
  - repeat constructor; try discriminate; unfold MaxScanTokenSize; cbn; lia.
  - apply lookup_singleton_eq.
  - reflexivity.
  - reflexivity.
Defined.

Lemma TrimLeft_blank (s : string) : chars_all space1 s = true -> TrimLeft s = "".
Proof.
  induction s as [| c s IH]; intros Hs; [reflexivity |].
  unfold chars_all in *. cbn [list_ascii_of_string forallb] in Hs.
  apply andb_true_iff in Hs as [Hc Hs]. cbn [TrimLeft]. rewrite Hc. exact (IH Hs).
Qed.

Lemma raw_lines_all (P : ascii -> bool) (s : string) :
  chars_all P s = true ->
  Forall (fun l => chars_all P l = true /\ (String.length l <= String.length s)%nat)
         (raw_lines s).
Proof.
  induction s as [| c s IH]; intros Hs; [constructor |].
  unfold chars_all in *. cbn [list_ascii_of_string forallb] in Hs.
  apply andb_true_iff in Hs as [Hc Hs]. specialize (IH Hs). cbn [raw_lines].
  destruct (Ascii.eqb c "010").
  - constructor; [split; [reflexivity | cbn; lia] |].
    eapply Forall_impl; [exact IH |]. cbn. intros l [Hl Hlen]. split; [exact Hl | lia].
  - destruct (raw_lines s) as [| l ls].
    + constructor; [| constructor]. split; [cbn; rewrite Hc; reflexivity | cbn; lia].
    + apply Forall_cons in IH as [[Hl Hlen] IH]. constructor.
      * split; [cbn; rewrite Hc; exact Hl | cbn; lia].
      * eapply Forall_impl; [exact IH |]. cbn. intros x [Hx Hxl]. split; [exact Hx | lia].
Qed.

Lemma dropCR_all (P : ascii -> bool) (s : string) :
  chars_all P s = true -> chars_all P (dropCR s) = true.
Proof.
  induction s as [| c s IH]; intros Hs; [reflexivity |].
  unfold chars_all in *. cbn [list_ascii_of_string forallb] in Hs.
  apply andb_true_iff in Hs as [Hc Hs]. cbn [dropCR].
  destruct s as [| c' s'].
  - destruct (Ascii.eqb c "013"); [reflexivity | cbn; rewrite Hc; reflexivity].
  - cbn [list_ascii_of_string forallb]. rewrite Hc. exact (IH Hs).
Qed.

(** X20. A file that holds only ASCII white space (blanks, tabs, line
    feeds, carriage returns, ...; the empty file too) and is shorter
    than the scanner's limit gives the error
    [no valid prefixes found in file], when opening and reading it
    succeed. *)
Theorem readPrefixFile_blank_file (filepath : string) (content : string) (w : World) :
  chars_all space1 content = true ->
  Z.of_nat (String.length content) < MaxScanTokenSize ->
  files w !! filepath = Some (bytes_of_string content) ->
  nth 0 (faults w) false = false ->
  nth 1 (faults w) false = false ->
  exists w',
    readPrefixFile filepath w = Done ([], Some "no valid prefixes found in file") w' /\
    files w' = files w.
Proof.
  intros Hblank Hlen Hfile Hf0 Hf1.
  pose proof (raw_lines_all space1 content Hblank) as Hlines.
  assert (Hscan : scan_lines content = Some (List.map dropCR (raw_lines content))).
  { unfold scan_lines. replace (existsb _ (raw_lines content)) with false; [reflexivity |].
    symmetry. apply not_true_is_false. intros He.
    apply existsb_exists in He as (l & Hl & Hlong).
    rewrite List.Forall_forall in Hlines. destruct (Hlines l Hl) as [_ Hle]. lia. }
  assert (Hcollect : collect_prefixes (List.map dropCR (raw_lines content)) [] = []).
  { rewrite collect_prefixes_filter. cbn [app].
    clear Hscan. induction Hlines as [| l ls [Hl _] _ IH]; [reflexivity |].
    cbn [List.map List.filter].
    replace (TrimSpace (dropCR l)) with "".
    - exact IH.
    - unfold TrimSpace. rewrite (TrimLeft_blank _ (dropCR_all _ _ Hl)). reflexivity. }
  destruct w as [fs ds fl tr]. cbn [files faults] in *.
  unfold readPrefixFile, os_Open, scanner_Scan_all.
  unfold bind, next_fault, ret. cbn [files dirs faults trace]. rewrite Hfile.
  replace (hd false fl) with false by (destruct fl; [reflexivity | exact (eq_sym Hf0)]).
  cbn [files dirs faults trace].
  replace (hd false (tl fl)) with false
    by (destruct fl as [| ? [| ? ?]]; try reflexivity; exact (eq_sym Hf1)).
  rewrite string_of_bytes_of_string, Hscan. cbv zeta. rewrite Hcollect.
  eexists. split; reflexivity.
Qed.

Lemma readPrefixFile_blank_file_witness :
  let content := "  " +:+ String "013" (String "010" (String "009" (String "010" ""))) in
  let w := {| files := {[ "prefixes.txt" := bytes_of_string content ]}; dirs := ∅;
              faults := []; trace := [] |} in
  exists w',
    readPrefixFile "prefixes.txt" w = Done ([], Some "no valid prefixes found in file") w' /\
    files w' = files w.
Proof.
  intros content w.
  apply (readPrefixFile_blank_file "prefixes.txt" content w).
  - reflexivity.
  - reflexivity.
  - apply lookup_singleton_eq.
  - reflexivity.
  - reflexivity.
Defined.

(** ** The set-up of [main] *)

Lemma Atoi_range (s : string) (n : Z) : Atoi s = Some n -> - 2 ^ 63 <= n < 2 ^ 63.
Proof.
  unfold Atoi. destruct s as [| c r]; [discriminate |]. cbv zeta.
  destruct (if Ascii.eqb c "-" || Ascii.eqb c "+" then r else String c r);
    [discriminate |].
  destruct (parse_digits _ 0) as [v |]; [| discriminate].
  destruct (_ && _) eqn:Hr; [| discriminate].
  intros [= <-]. apply andb_true_iff in Hr as [H1 H2].
  apply Z.leb_le in H1. apply Z.ltb_lt in H2. lia.
Qed.

Lemma bind_Done {A B} (m : M A) (k : A -> M B) (w w' : World) (b : B) :
  bind m k w = Done b w' -> exists a w1, m w = Done a w1 /\ k a w1 = Done b w'.
Proof.
  unfold bind. destruct (m w) as [a w1 | w1 | c w1]; try discriminate.
  intros H. exists a, w1. split; [reflexivity | exact H].
Qed.

Lemma bind_run {A B} (m : M A) (k : A -> M B) (w w1 : World) (a : A) :
  m w = Done a w1 -> bind m k w = k a w1.
Proof. intros H. unfold bind. rewrite H. reflexivity. Qed.

(** The three lines with which [main] gives up on its arguments. *)
Lemma usage_exit_not_Done {A} (s : string) (w w' : World) (a : A) :
  (fmt_Print s ;; printUsage ;; os_Exit 1) w <> Done a w'.
Proof.
  intros H. apply bind_Done in H as (_ & w1 & _ & H).
  apply bind_Done in H as (_ & w2 & _ & H). discriminate H.
Qed.

Lemma print_exit_not_Done {A} (s : string) (w w' : World) (a : A) :
  (fmt_Print s ;; os_Exit 1) w <> Done a w'.
Proof.
  intros H. apply bind_Done in H as (_ & w1 & _ & H). discriminate H.
Qed.

Lemma prints_only_ret {A} (a : A) (w : World) : prints_only (ret a) w.
Proof.
  exists [], w. rewrite app_nil_r. repeat split; auto.
  right. exists a. reflexivity.
Qed.

Lemma prints_only_exit {A} (w : World) : prints_only (os_Exit (A := A) 1) w.
Proof.
  exists [], w. rewrite app_nil_r. repeat split; auto.
Qed.

Lemma prints_only_print (s : string) (w : World) : prints_only (fmt_Print s) w.
Proof.
  exists [EvPrint s], (log w [EvPrint s]). repeat split; auto.
  - repeat constructor.
  - right. exists tt. reflexivity.
Qed.

Lemma prints_only_bind {A B} (m : M A) (k : A -> M B) (w : World) :
  prints_only m w ->
  (forall a w1, m w = Done a w1 -> prints_only (k a) w1) ->
  prints_only (bind m k) w.
Proof.
  intros (evs & w1 & Hf & Hd & Ht & Hp & [He | [a Ha]]) Hk.
  - exists evs, w1. repeat split; auto. left. unfold bind. rewrite He. reflexivity.
  - destruct (Hk a w1 Ha) as (evs' & w2 & Hf' & Hd' & Ht' & Hp' & Hr).
    exists (evs ++ evs'), w2. repeat split.
    + congruence.
    + congruence.
    + rewrite Ht', Ht, app_assoc. reflexivity.
    + apply Forall_app. split; assumption.
    + rewrite (bind_run _ _ _ _ _ Ha). exact Hr.
Qed.

Ltac prints_only_step :=
  lazymatch goal with
  | |- prints_only (bind _ _) _ => apply prints_only_bind; [| intros ? ? _]
  | |- prints_only (ret _) _ => apply prints_only_ret
  | |- prints_only (os_Exit _) _ => apply prints_only_exit
  | |- prints_only (fmt_Print _) _ => apply prints_only_print
  end.

Lemma prints_only_printUsage (w : World) : prints_only printUsage w.
Proof. unfold printUsage. repeat prints_only_step. Qed.

Lemma prints_only_usage_exit {A} (s : string) (w : World) :
  prints_only (A := A) (fmt_Print s ;; printUsage ;; os_Exit 1) w.
Proof.
  apply prints_only_bind; [apply prints_only_print | intros ? ? _].
  apply prints_only_bind; [apply prints_only_printUsage | intros ? ? _].
  apply prints_only_exit.
Qed.

Lemma prints_only_readPrefixFile (filepath : string) (w : World) :
  prints_only (readPrefixFile filepath) w.
Proof.
  destruct (readPrefixFile_cases filepath w) as (res & w' & Hrun & Hf & Hd & Ht & _).
  exists [], w'. rewrite app_nil_r. repeat split; auto.
  right. exists res. exact Hrun.
Qed.

(** X22. Whatever the flags, the arguments and the files are, the
    set-up of [main] does not panic and leaves, if it does, with status 1;
    it writes no file, creates no directory, and all it adds to the
    events are printed lines. *)
Theorem main_setup_outcome (Compile : string -> option Regexp) (NumCPU : Z)
    (outputMode prefixFilePath : string) (args : list string) (w : World) :
  prints_only (main_setup Compile NumCPU outputMode prefixFilePath args) w.
Proof.
  unfold main_setup.
  apply prints_only_bind.
  { destruct (decide _); [apply prints_only_usage_exit | apply prints_only_ret]. }
  intros _ w1 _.
  apply prints_only_bind.
  { destruct (decide (prefixFilePath <> "")).
    - apply prints_only_bind; [apply prints_only_readPrefixFile | intros [ps [e |]] w2 _].
      + repeat prints_only_step.
      + apply prints_only_bind; [apply prints_only_print | intros _ w3 _].
        destruct args as [| arg0 rest]; [apply prints_only_usage_exit |].
        destruct (Atoi arg0) as [num |]; [| apply prints_only_usage_exit].
        destruct (num <? 1); [apply prints_only_usage_exit | apply prints_only_ret].
    - destruct args as [| arg0 [| arg1 rest]];
        [apply prints_only_usage_exit | apply prints_only_usage_exit |].
      destruct (Atoi arg1) as [num |]; [| apply prints_only_usage_exit].
      destruct (num <? 1); [apply prints_only_usage_exit | apply prints_only_ret]. }
  intros [[pattern prefixes] number] w2 _.
  apply prints_only_bind.
  { destruct (_ =? _)%nat; [| apply prints_only_ret].
    destruct (Compile pattern); repeat prints_only_step. }
  intros re w3 _. repeat prints_only_step.
Qed.

(** The results of the two ways through the arguments. *)
Lemma main_setup_Done (Compile : string -> option Regexp) (NumCPU : Z)
    (outputMode prefixFilePath : string) (args : list string)
    (re : option Regexp) (prefixes : list string) (number : Z) (w w' : World) :
  main_setup Compile NumCPU outputMode prefixFilePath args w = Done (re, prefixes, number) w' ->
  (outputMode = TorMode \/ outputMode = BitcoinMode) /\
  1 <= number /\
  ((prefixFilePath = "" /\ prefixes = [] /\
    exists pattern arg1 rest,
      args = pattern :: arg1 :: rest /\ Atoi arg1 = Some number /\
      Compile pattern = re /\ re <> None)
   \/
   (prefixFilePath <> "" /\ re = None /\
    (exists w1, readPrefixFile prefixFilePath w = Done (prefixes, None) w1) /\
    exists arg0 rest, args = arg0 :: rest /\ Atoi arg0 = Some number)).
Proof.
  unfold main_setup. intros H.
  apply bind_Done in H as (u & w1 & H1 & H).
  destruct (decide (outputMode <> TorMode /\ outputMode <> BitcoinMode)) as [Hm | Hm];
    [exfalso; exact (usage_exit_not_Done _ _ _ _ H1) |].
  assert (Hw : w1 = w) by (unfold ret in H1; congruence). clear H1. subst w1.
  assert (Hmode : outputMode = TorMode \/ outputMode = BitcoinMode).
  { destruct (decide (outputMode = TorMode)); [left; assumption |].
    destruct (decide (outputMode = BitcoinMode)); [right; assumption |].
    exfalso. apply Hm. split; assumption. }
  apply bind_Done in H as ([[pattern ps] num] & w2 & H2 & H).
  apply bind_Done in H as (re' & w3 & H3 & H).
  apply bind_Done in H as (_ & w4 & _ & H).
  injection H as E1 E2 E3 _. subst re' ps num.
  destruct (decide (prefixFilePath <> "")) as [Hp | Hp].
  - apply bind_Done in H2 as ([ps' [e |]] & w5 & Hread & H2);
      [exfalso; exact (print_exit_not_Done _ _ _ _ H2) |].
    apply bind_Done in H2 as (_ & w6 & _ & H2).
    destruct args as [| arg0 rest];
      [exfalso; exact (usage_exit_not_Done _ _ _ _ H2) |].
    destruct (Atoi arg0) as [n |] eqn:Hn;
      [| exfalso; exact (usage_exit_not_Done _ _ _ _ H2)].
    destruct (n <? 1) eqn:Hlt;
      [exfalso; exact (usage_exit_not_Done _ _ _ _ H2) |].
    injection H2 as E1 E2 E3 _. subst pattern ps' n. apply Z.ltb_ge in Hlt.
    destruct (readPrefixFile_cases prefixFilePath w) as (res & wr & Hrun & _ & _ & _ & Hres).
    rewrite Hrun in Hread. injection Hread as E1 _. subst res.
    assert (Hne : prefixes <> []).
    { destruct Hres as [Hr | [Hr | [Hr | (lines & data & _ & _ & Hne & Hr)]]];
        try discriminate Hr.
      injection Hr as E1. rewrite E1. exact Hne. }
    destruct prefixes as [| p ps]; [contradiction |].
    cbn [List.length Nat.eqb] in H3. injection H3 as E1 _. subst re.
    split; [exact Hmode |]. split; [exact Hlt |]. right.
    split; [exact Hp |]. split; [reflexivity |].
    split; [exists wr; exact Hrun |]. exists arg0, rest. split; [reflexivity | exact Hn].
  - assert (Hpe : prefixFilePath = "").
    { destruct (decide (prefixFilePath = "")); [assumption | contradiction]. }
    destruct args as [| arg0 [| arg1 rest]];
      [exfalso; exact (usage_exit_not_Done _ _ _ _ H2)
      | exfalso; exact (usage_exit_not_Done _ _ _ _ H2) |].
    destruct (Atoi arg1) as [n |] eqn:Hn;
      [| exfalso; exact (usage_exit_not_Done _ _ _ _ H2)].
    destruct (n <? 1) eqn:Hlt;
      [exfalso; exact (usage_exit_not_Done _ _ _ _ H2) |].
    injection H2 as E1 E2 E3 _. subst arg0 prefixes n. apply Z.ltb_ge in Hlt.
    cbn [List.length Nat.eqb] in H3.
    destruct (Compile pattern) as [r |] eqn:Hc;
      [| exfalso; exact (print_exit_not_Done _ _ _ _ H3)].
    injection H3 as E1 _. subst re.
    split; [exact Hmode |]. split; [exact Hlt |]. left.
    split; [exact Hpe |]. split; [reflexivity |].
    exists pattern, arg1, rest. split; [reflexivity |]. split; [exact Hn |].
    split; [exact Hc | discriminate].
Qed.

(** X23. When the set-up of [main] returns, the goroutines start with
    an output mode that is [tor] or [bitcoin], a target between 1 and
    2^63 - 1, and exactly one way of matching: a compiled regular
    expression and no prefix, or no regular expression and a list of
    prefixes that is not empty, each of them non-empty and without ASCII
    white space at its ends.  The target is the first argument when a
    prefix file is given, and the second one otherwise. *)
Theorem main_setup_result (Compile : string -> option Regexp) (NumCPU : Z)
    (outputMode prefixFilePath : string) (args : list string)
    (re : option Regexp) (prefixes : list string) (number : Z) (w w' : World) :
  main_setup Compile NumCPU outputMode prefixFilePath args w = Done (re, prefixes, number) w' ->
  (outputMode = TorMode \/ outputMode = BitcoinMode) /\
  1 <= number < 2 ^ 63 /\
  ((re <> None /\ prefixes = []) \/
   (re = None /\ prefixes <> [] /\ Forall trimmed prefixes)) /\
  Atoi (nth (if decide (prefixFilePath = "") then 1 else 0)%nat args "") = Some number.
Proof.
  intros H. apply main_setup_Done in H as (Hmode & Hn & Hcase).
  split; [exact Hmode |].
  destruct Hcase as [(-> & -> & pattern & arg1 & rest & -> & Ha & Hc & Hre)
                    | (Hp & -> & [w1 Hread] & arg0 & rest & -> & Ha)].
  - split; [pose proof (Atoi_range _ _ Ha); lia |].
    split; [left; split; [exact Hre | reflexivity] |].
    rewrite decide_True by reflexivity. exact Ha.
  - split; [pose proof (Atoi_range _ _ Ha); lia |].
    split.
    + right. split; [reflexivity |].
      destruct (readPrefixFile_cases prefixFilePath w) as (res & wr & Hrun & _ & _ & _ & Hres).
      rewrite Hrun in Hread. injection Hread as E _. subst res.
      destruct Hres as [Hr | [Hr | [Hr | (lines & data & _ & _ & Hne & Hr)]]];
        try discriminate Hr.
      injection Hr as E. rewrite E. split; [exact Hne |].
      rewrite collect_prefixes_filter. cbn [app].
      apply List.Forall_forall. intros p Hin. apply filter_In in Hin as [Hin Hnz].
      apply in_map_iff in Hin as (l & <- & _).
      apply TrimSpace_spec. intros He. rewrite He in Hnz. discriminate Hnz.
    + rewrite decide_False by exact Hp. exact Ha.
Qed.

Lemma main_setup_result_witness :
  let Compile := fun pattern : string => Some (fun s : string => String.eqb s pattern) in
  let w := {| files := {[ "prefixes.txt" := bytes_of_string ("  abc " +:+ LF +:+ "test2") ]};
              dirs := ∅; faults := []; trace := [] |} in
  (BitcoinMode = TorMode \/ BitcoinMode = BitcoinMode) /\
  1 <= 5 < 2 ^ 63 /\
  ((@None Regexp <> None /\ ["abc"; "test2"] = []) \/
   (@None Regexp = None /\ ["abc"; "test2"] <> [] /\ Forall trimmed ["abc"; "test2"])) /\
  Atoi (nth (if decide ("prefixes.txt" = "") then 1 else 0)%nat ["5"; "ignored"] "") = Some 5.
Proof.
  intros Compile w.
  eapply (main_setup_result Compile 8 BitcoinMode "prefixes.txt" ["5"; "ignored"]
            None ["abc"; "test2"] 5 w).
  vm_compute. reflexivity.
Defined.

(** X24. The set-up of [main] returns exactly when the output mode is
    [tor] or [bitcoin] and, without a prefix file, there are at least
    two arguments, the first one a regular expression that compiles and
    the second one a decimal number that is at least 1; with a prefix
    file, [readPrefixFile] gives no error and the first argument is such
    a number (a regular expression put before the number is not
    skipped). *)
Theorem main_setup_returns_iff (Compile : string -> option Regexp) (NumCPU : Z)
    (outputMode prefixFilePath : string) (args : list string) (w : World) :
  (exists r w', main_setup Compile NumCPU outputMode prefixFilePath args w = Done r w')
  <->
  (outputMode = TorMode \/ outputMode = BitcoinMode) /\
  exists number, 1 <= number /\
    if decide (prefixFilePath = "") then
      exists pattern arg1 rest,
        args = pattern :: arg1 :: rest /\ Atoi arg1 = Some number /\
        Compile pattern <> None
    else
      (exists prefixes w1, readPrefixFile prefixFilePath w = Done (prefixes, None) w1) /\
      exists arg0 rest, args = arg0 :: rest /\ Atoi arg0 = Some number.
Proof.
  split.
  - intros ([[re prefixes] number] & w' & H).
    apply main_setup_Done in H as (Hmode & Hn & Hcase).
    split; [exact Hmode |]. exists number. split; [exact Hn |].
    destruct Hcase as [(-> & -> & pattern & arg1 & rest & -> & Ha & Hc & Hre)
                      | (Hp & -> & [w1 Hread] & arg0 & rest & -> & Ha)].
    + rewrite decide_True by reflexivity. exists pattern, arg1, rest.
      split; [reflexivity |]. split; [exact Ha |]. rewrite Hc. exact Hre.
    + rewrite decide_False by exact Hp.
      split; [exists prefixes, w1; exact Hread |]. exists arg0, rest.
      split; [reflexivity | exact Ha].
  - intros (Hmode & number & Hn & Hcase).
    assert (Hlt : (number <? 1) = false) by (apply Z.ltb_ge; lia).
    unfold main_setup.
    rewrite (bind_run _ _ w w tt).
    2:{ rewrite decide_False; [reflexivity |].
        intros [H1 H2]. destruct Hmode; contradiction. }
    destruct (decide (prefixFilePath = "")) as [-> | Hp].
    + destruct Hcase as (pattern & arg1 & rest & -> & Ha & Hc).
      rewrite decide_False by (intros H; apply H; reflexivity).
      rewrite Ha, Hlt.
      destruct (Compile pattern) as [r |] eqn:Hr; [| contradiction].
      do 2 eexists. unfold bind, ret, fmt_Print, emit. cbn [List.length Nat.eqb].
      rewrite Hr. reflexivity.
    + destruct Hcase as ((prefixes & w1 & Hread) & arg0 & rest & -> & Ha).
      rewrite decide_True by exact Hp.
      assert (Hne : prefixes <> []).
      { destruct (readPrefixFile_cases prefixFilePath w)
          as (res & wr & Hrun & _ & _ & _ & Hres).
        rewrite Hrun in Hread. injection Hread as E _. subst res.
        destruct Hres as [Hr | [Hr | [Hr | (lines & data & _ & _ & Hne & Hr)]]];
          try discriminate Hr.
        injection Hr as E. rewrite E. exact Hne. }
      destruct prefixes as [| p ps]; [contradiction |].
      do 2 eexists. unfold bind, ret, fmt_Print, emit. rewrite Hread.
      rewrite Ha, Hlt. cbn [List.length Nat.eqb]. reflexivity.
Qed.
